(** * The VAE training controller of [molecules.ml.unsupervised.vae.vae]

    A shallow embedding of the [VAE] class: device resolution, the loss
    functions, the mixed-precision step, checkpoint loading and the
    epoch/batch loop with its callback hooks, and [compute_losses]. Beside
    it: [minmax] of the embedding callback, the train/validation split of
    [ContactMapDataset], and [parse_dict] of the example drivers.

    Python floats are idealised as real numbers; tensors are flat lists of
    reals.  PyTorch itself (networks, autograd, optimizers, the random
    generator, [torch.load]) is kept abstract. Console output is not modelled. *)

From Stdlib Require Import Reals Lra ZArith QArith List Ascii.
From stdpp Require Import gmap strings list.

Local Open Scope Z_scope.

(** ** Python outcomes: a value or a raised exception *)

Module Py.

Inductive exn :=
| KeyError (key : string)
| ValueError (msg : string)
| UnboundLocalError (var : string)
| FileNotFoundError (path : string)
| TypeError (msg : string)
| CallbackError (msg : string).

Inductive result (A : Type) :=
| Ok (a : A)
| Raise (e : exn).
Arguments Ok {A} a.
Arguments Raise {A} e.

Definition is_ok {A} (r : result A) : bool :=
  match r with Ok _ => true | Raise _ => false end.

(** [range(a, b)] over Python integers. *)
Definition range (a b : Z) : list Z :=
  map (fun i => a + Z.of_nat i) (seq 0 (Z.to_nat (b - a))).

End Py.
Export Py.

(** ** Device resolution: [VAE._configure_device] *)

Module Device.

(** [torch.device("cpu")], [torch.device("cuda")], [torch.device("cuda:k")]. *)
Inductive device :=
| cpu
| cuda
| cuda_idx (k : Z).

(** The [gpu] argument: [None], an [int], a tuple whose elements are ints or
    [None], or anything else. *)
Inductive gpu_arg :=
| GNone
| GInt (k : Z)
| GTuple (elts : list (option Z))
| GOther.

(** [None in gpu]. *)
Definition None_in (elts : list (option Z)) : bool :=
  existsb (fun o => match o with None => true | Some _ => false end) elts.

Definition invalid_msg : string :=
  "Specified GPU device is invalid. Should be int, 2-tuple or None.".

Definition no_cuda_msg : string :=
  "Specified GPU training but CUDA is not available.".

(** [cuda_available] is [torch.cuda.is_available()]. *)
Definition _configure_device (cuda_available : bool) (gpu : gpu_arg)
  : result (device * device) :=
  let absent :=
    match gpu with
    | GNone => true
    | GTuple elts => None_in elts
    | _ => false
    end in
  if absent then
    let d := if cuda_available then cuda else cpu in Ok (d, d)
  else if negb cuda_available then Raise (ValueError no_cuda_msg)
  else
    match gpu with
    | GInt k => Ok (cuda_idx k, cuda_idx k)
    | GTuple [Some a; Some b] => Ok (cuda_idx a, cuda_idx b)
    | _ => Raise (ValueError invalid_msg)
    end.

End Device.

(** ** Tensors and the loss functions *)

Definition tensor := list R.

Module Loss.
Section Loss.
Local Open Scope R_scope.

(** [torch.nn.functional.binary_cross_entropy] (on probabilities) and
    [binary_cross_entropy_with_logits] (on pre-activation logits), both with
    [reduction="mean"]: PyTorch functions, kept abstract. *)
Variable F_binary_cross_entropy : tensor -> tensor -> R.
Variable F_binary_cross_entropy_with_logits : tensor -> tensor -> R.

Definition torch_sum (t : tensor) : R := fold_right Rplus 0 t.

Definition torch_mean (t : tensor) : R := torch_sum t / INR (length t).

(** [1 + logvar - mu.pow(2) - logvar.exp()], elementwise. *)
Definition kld_terms (mu logvar : tensor) : tensor :=
  zip_with (fun m lv => 1 + lv - m ^ 2 - exp lv) mu logvar.

Definition KLD (mu logvar : tensor) : R :=
  -0.5 * torch_mean (kld_terms mu logvar).


Definition vae_logit_loss (logit_recon_x x mu logvar : tensor) : R * R :=
  let BCE := F_binary_cross_entropy_with_logits logit_recon_x x in
  (BCE, KLD mu logvar).

Definition vae_logit_loss_outlier_helper
    (logit_recon_x x mu logvar : tensor) (lambda_rec : R) : R * R :=
  let BCE := F_binary_cross_entropy_with_logits logit_recon_x x in
  (lambda_rec * BCE, KLD mu logvar).

End Loss.
End Loss.

(** ** The gradient scaler

    [torch.cuda.amp.GradScaler] with its default settings, as PyTorch
    documents it: the scale starts at 2^16, is halved after a step that found
    non-finite gradients and doubled after [growth_interval] clean steps.
    A scaler asked to be enabled without CUDA disables itself. *)

Module GradScaler.
Local Open Scope R_scope.

Record t := {
  enabled : bool;
  scale : R;
  growth_factor : R;
  backoff_factor : R;
  growth_interval : Z;
  growth_tracker : Z;
  found_inf : bool
}.

Definition init (enable cuda_available : bool) : t :=
  {| enabled := enable && cuda_available;
     scale := 65536;
     growth_factor := 2;
     backoff_factor := 0.5;
     growth_interval := 2000;
     growth_tracker := 0;
     found_inf := false |}.

(** The factor [scale(loss)] multiplies the loss by. *)
Definition loss_factor (s : t) : R := if enabled s then scale s else 1.

Definition set_found_inf (b : bool) (s : t) : t :=
  {| enabled := enabled s; scale := scale s;
     growth_factor := growth_factor s; backoff_factor := backoff_factor s;
     growth_interval := growth_interval s;
     growth_tracker := growth_tracker s; found_inf := b |}.

Definition set_scale (x : R) (tracker : Z) (s : t) : t :=
  {| enabled := enabled s; scale := x;
     growth_factor := growth_factor s; backoff_factor := backoff_factor s;
     growth_interval := growth_interval s;
     growth_tracker := tracker; found_inf := false |}.

(** [update()]: a no-op when disabled. *)
Definition update (s : t) : t :=
  if enabled s then
    if found_inf s then set_scale (scale s * backoff_factor s) 0 s
    else
      let successful := (growth_tracker s + 1)%Z in
      if (successful =? growth_interval s)%Z
      then set_scale (scale s * growth_factor s) 0 s
      else set_scale (scale s) successful s
  else s.

End GradScaler.

(** ** [minmax] of [molecules.ml.callbacks.embedding_callback] *)

Module Embedding.
Section Minmax.

(** The elements of [x] and their [<]; [i > max_] is [max_ < i]. *)
Variable A : Type.
Variable ltb : A -> A -> bool.

(** [for i in x[1:]], from the current [max_] and [min_]. *)
Fixpoint minmax_loop (xs : list A) (max_ min_ : A) : A * A :=
  match xs with
  | [] => (min_, max_)
  | i :: rest =>
      if ltb max_ i then minmax_loop rest i min_
      else if ltb i min_ then minmax_loop rest max_ i
      else minmax_loop rest max_ min_
  end.

(** [None] where there is no [x[0]]. *)
Definition minmax (x : list A) : option (A * A) :=
  match x with
  | [] => None
  | x0 :: rest => Some (minmax_loop rest x0 x0)
  end.

End Minmax.
End Embedding.

(** ** [ContactMapDataset] of [molecules.ml.datasets.contact_map]

    The HDF5 file is taken to open and to hold a [contact_maps] object; what
    h5py does with it is kept abstract. [split_ptc], a Python float, is
    idealised as a rational number. *)

Module ContactMap.

(** What the methods of the class raise. *)
Inductive raised :=
| ValueError (msg : string)
| AttributeError (attr : string).

Definition split_msg : string :=
  "Parameter split must be 'train' or 'valid'.".

Definition split_ptc_msg : string :=
  "Parameter split_ptc must satisfy 0 <= split_ptc <= 1.".

(** [int(x)] of a float: truncation toward zero. *)
Definition int (x : Q) : Z := Z.quot (Qnum x) (Zpos (Qden x)).

Section Dataset.

(** An object of the file, with [len(obj)], [obj.shape[i]], [group.get(name)]
    and [dset[idx]]; an index of a dataset holds an [X]. *)
Variables node X : Type.
Variable h5_len : node -> Z.
Variable h5_shape : node -> Z -> Z.
Variable h5_get : node -> string -> node.
Variable h5_getitem : node -> Z -> X.

(** The attributes of the object; [None] for one that was never assigned. *)
Record ContactMapDataset := {
  dset : option node;
  row_dset : option node;
  col_dset : option node;
  split_ind : Z;
  split : string;
  sparse : bool;
  shape : list Z;
  device : Device.device
}.

(** [self.<attr>]. *)
Definition getattr (attr : string) (a : option node) : raised + node :=
  match a with
  | Some n => inr n
  | None => inl (AttributeError attr)
  end.

(** [contact_maps] is [h5_file['contact_maps']]. *)
Definition __init__ (contact_maps : node) (split_ptc : Q) (split : string)
    (squeeze sparse : bool) (gpu : option Z) (cuda_available : bool)
  : raised + ContactMapDataset :=
  if negb (String.eqb split "train" || String.eqb split "valid")
  then inl (ValueError split_msg)
  else if negb (Qle_bool 0 split_ptc) || negb (Qle_bool split_ptc 1)
  then inl (ValueError split_ptc_msg)
  else
    let self_dset := if sparse then None else Some contact_maps in
    let self_row_dset :=
      if sparse then Some (h5_get contact_maps "row") else None in
    let self_col_dset :=
      if sparse then Some (h5_get contact_maps "col") else None in
    match getattr "dset" self_dset with
    | inl e => inl e
    | inr d =>
        inr {| dset := self_dset;
               row_dset := self_row_dset;
               col_dset := self_col_dset;
               split_ind := int (split_ptc * inject_Z (h5_len d));
               split := split;
               sparse := sparse;
               shape :=
                 if squeeze then [h5_shape d 1; h5_shape d 2]
                 else [1; h5_shape d 1; h5_shape d 2];
               device :=
                 match gpu with
                 | None => if cuda_available then Device.cuda else Device.cpu
                 | Some k => Device.cuda_idx k
                 end |}
    end.

Definition __len__ (self : ContactMapDataset) : raised + Z :=
  if String.eqb (split self) "train" then inr (split_ind self)
  else
    match getattr "dset" (dset self) with
    | inl e => inl e
    | inr d => inr (h5_len d - split_ind self)
    end.

(** What an item is made from: an entry of the dense dataset, or a pair of
    entries of the row and column datasets. Turning it into a tensor of
    [self.shape] on [self.device] is PyTorch's. *)
Inductive item :=
| Dense (x : X)
| Sparse (row col : X).

Definition __getitem__ (self : ContactMapDataset) (idx : Z) : raised + item :=
  let idx :=
    if String.eqb (split self) "valid" then idx + split_ind self else idx in
  if sparse self then
    match getattr "row_dset" (row_dset self) with
    | inl e => inl e
    | inr rows =>
        match getattr "col_dset" (col_dset self) with
        | inl e => inl e
        | inr cols => inr (Sparse (h5_getitem rows idx) (h5_getitem cols idx))
        end
    end
  else
    match getattr "dset" (dset self) with
    | inl e => inl e
    | inr d => inr (Dense (h5_getitem d idx))
    end.

End Dataset.
End ContactMap.

(** ** [parse_dict] of the example drivers *)

Module Cli.

(** [s.split(sep)] for a separator of one character. *)
Fixpoint split (sep : Ascii.ascii) (s : string) : list string :=
  match s with
  | EmptyString => [EmptyString]
  | String c rest =>
      if Ascii.eqb c sep then EmptyString :: split sep rest
      else
        match split sep rest with
        | [] => [String c EmptyString]
        | first :: others => String c first :: others
        end
  end.

Definition not_enough_msg : string :=
  "not enough values to unpack (expected 2, got 1)".

Definition too_many_msg : string :=
  "too many values to unpack (expected 2)".

(** [for item in token: k, v = item.split("="); result[k] = v]. *)
Fixpoint parse_items (token : list string) (result : gmap string string)
  : Py.result (gmap string string) :=
  match token with
  | [] => Ok result
  | item :: rest =>
      match split "="%char item with
      | [k; v] => parse_items rest (<[k := v]> result)
      | [] | [_] => Raise (Py.ValueError not_enough_msg)
      | _ => Raise (Py.ValueError too_many_msg)
      end
  end.

(** [None] in, [None] out: the function falls off its end. *)
Definition parse_dict (value : option string)
  : Py.result (option (gmap string string)) :=
  match value with
  | None => Ok None
  | Some value =>
      match parse_items (split ","%char value) ∅ with
      | Ok result => Ok (Some result)
      | Raise e => Raise e
      end
  end.

(** *** Vocabulary of the statements about [parse_dict] *)

(** How often [c] occurs in [s]. *)
Fixpoint count (c : Ascii.ascii) (s : string) : nat :=
  match s with
  | EmptyString => O
  | String c' rest => (if Ascii.eqb c' c then 1 else 0) + count c rest
  end.

(** [f"{k}={v}"] and [",".join(...)] of such items. *)
Definition item (kv : string * string) : string :=
  String.append (fst kv) (String "="%char (snd kv)).

Fixpoint join (sep : Ascii.ascii) (items : list string) : string :=
  match items with
  | [] => EmptyString
  | [x] => x
  | x :: rest => String.append x (String sep (join sep rest))
  end.

(** [result[k] = v] for each pair in turn. *)
Definition assign_all (kvs : list (string * string))
    (result : gmap string string) : gmap string string :=
  fold_left (fun m kv => <[fst kv := snd kv]> m) kvs result.

End Cli.

(** ** Data shared by the controller and its callbacks *)

(** Identity of a Python object. *)
Definition obj_id := nat.

(** [self.model]: the [VAEModel] itself, or a [DistributedDataParallel]
    wrapper around it. *)
Inductive model_ref :=
| Plain (module : obj_id)
| DistributedDataParallel (wrapper module : obj_id).

(** [handle = self.model; if isinstance(handle, DDP): handle = handle.module]. *)
Definition unwrap (m : model_ref) : obj_id :=
  match m with
  | Plain module => module
  | DistributedDataParallel _ module => module
  end.

(** Values stored in [logs]. *)
Inductive value :=
| VObj (ref : obj_id)
| VFloat (x : R)
| VInt (n : Z)
| VTensor (x : tensor).

(** A batch [(data, rmsd, fnc, index)]. *)
Record Batch := {
  data : tensor;
  rmsd : tensor;
  fnc : tensor;
  index : tensor
}.

(** The nine lifecycle points, each with the arguments the controller passes
    besides [logs]. *)
Inductive hook_call :=
| on_train_begin
| on_epoch_begin (epoch : Z)
| on_batch_begin (batch_idx epoch : Z)
| on_batch_end (batch_idx epoch : Z)
| on_epoch_end (epoch : Z)
| on_validation_begin (epoch : Z)
| on_validation_batch_end (epoch batch_idx : Z) (rmsd fnc mu : tensor)
| on_validation_end (epoch : Z)
| on_train_end.

Inductive phase := Training | Validation.

(** What a run leaves behind, in the order it happened. *)
Inductive event :=
| EvTrainPass (epoch : Z)
| EvValidPass (epoch : Z)
| EvLoss (ph : phase) (epoch batch_idx : Z) (loss : R)
| EvLogSet (key : string) (v : value)
| EvHook (idx : nat) (call : hook_call)
         (logs_in logs_out : gmap string value) (r : result unit).

Definition is_hook (e : event) : bool :=
  match e with EvHook _ _ _ _ _ => true | _ => false end.

(** The controller's own events: everything but the hook invocations. *)
Definition ctl (tr : list event) : list event :=
  List.filter (fun e => negb (is_hook e)) tr.

Definition epochs_trained (tr : list event) : list Z :=
  omap (fun e => match e with EvTrainPass ep => Some ep | _ => None end) tr.

Definition epochs_validated (tr : list event) : list Z :=
  omap (fun e => match e with EvValidPass ep => Some ep | _ => None end) tr.

(** The values written under [key], in order. *)
Definition log_writes (key : string) (tr : list event) : list value :=
  omap (fun e => match e with
                 | EvLogSet k v => if String.eqb k key then Some v else None
                 | _ => None
                 end) tr.

Definition all_log_writes (tr : list event) : list (string * value) :=
  omap (fun e => match e with EvLogSet k v => Some (k, v) | _ => None end) tr.

(** The per-batch losses computed in one pass of one epoch. *)
Definition losses (ph : phase) (epoch : Z) (tr : list event) : list R :=
  omap (fun e => match e with
                 | EvLoss ph' ep _ l =>
                     if (match ph, ph' with
                         | Training, Training | Validation, Validation => true
                         | _, _ => false
                         end) && (ep =? epoch)
                     then Some l else None
                 | _ => None
                 end) tr.

(** Every loss computed, with its phase, epoch and batch index. *)
Definition all_losses (tr : list event) : list (phase * Z * Z * R) :=
  omap (fun e => match e with
                 | EvLoss ph ep i l => Some (ph, ep, i, l)
                 | _ => None
                 end) tr.

Definition sumR (xs : list R) : R := fold_left Rplus xs 0%R.

(** ** The controller *)

Section Controller.

(** *** PyTorch, kept abstract *)

Variables state_dict opt_state grads RNG : Type.

(** The encoder returns [(mu, logvar)]; the decoder returns logits. Both read
    their weights and the train/eval mode. *)
Variable encoder : state_dict -> bool -> tensor -> tensor * tensor.
Variable decoder : state_dict -> bool -> tensor -> tensor.
Variable randn_like : RNG -> tensor -> tensor * RNG.

Variable F_binary_cross_entropy_with_logits : tensor -> tensor -> R.

Definition loss_fn := tensor -> tensor -> tensor -> tensor -> R * R.

(** The gradients [backward()] leaves behind for a batch: they depend on the
    loss function and its weighting, the weights and mode, the generator
    state the forward pass started from, the batch, and the factor the loss
    was scaled by. *)
Variable backward :
  loss_fn -> R -> state_dict -> state_dict -> bool -> RNG -> tensor -> R -> grads.
Variable grads_nonfinite : grads -> bool.
Variable unscale : R -> grads -> grads.
Variable optimizer_step :
  opt_state -> state_dict * state_dict -> grads ->
  opt_state * (state_dict * state_dict).

(** A stored checkpoint is a dictionary. *)
Inductive cp_value :=
| CpStateDict (sd : state_dict)
| CpOptimizer (o : opt_state)
| CpInt (n : Z).

(** [torch.load(path, map_location="cpu")]; [None] when there is no such file. *)
Variable torch_load : string -> option (gmap string cp_value).

(** [torch.cuda.is_available()], [dist.is_initialized()], [dist.get_rank()],
    [dist.get_world_size()]. *)
Variable cuda_is_available : bool.
Variable dist_is_initialized : bool.
Variables dist_rank dist_world_size : Z.

(** State owned by the callback objects. *)
Variable W : Type.

(** *** Mutable state *)

Record store := {
  encoder_sd : state_dict;
  decoder_sd : state_dict;
  training : bool;
  optimizer_sd : opt_state;
  grad : option grads;
  gscaler : GradScaler.t;
  rng : RNG
}.

Definition set_training (b : bool) (st : store) : store :=
  {| encoder_sd := encoder_sd st; decoder_sd := decoder_sd st; training := b;
     optimizer_sd := optimizer_sd st; grad := grad st;
     gscaler := gscaler st; rng := rng st |}.

Definition set_rng (r : RNG) (st : store) : store :=
  {| encoder_sd := encoder_sd st; decoder_sd := decoder_sd st;
     training := training st; optimizer_sd := optimizer_sd st;
     grad := grad st; gscaler := gscaler st; rng := r |}.

Definition set_grad (g : option grads) (st : store) : store :=
  {| encoder_sd := encoder_sd st; decoder_sd := decoder_sd st;
     training := training st; optimizer_sd := optimizer_sd st;
     grad := g; gscaler := gscaler st; rng := rng st |}.

Definition set_gscaler (s : GradScaler.t) (st : store) : store :=
  {| encoder_sd := encoder_sd st; decoder_sd := decoder_sd st;
     training := training st; optimizer_sd := optimizer_sd st;
     grad := grad st; gscaler := s; rng := rng st |}.

Definition set_encoder_sd (sd : state_dict) (st : store) : store :=
  {| encoder_sd := sd; decoder_sd := decoder_sd st;
     training := training st; optimizer_sd := optimizer_sd st;
     grad := grad st; gscaler := gscaler st; rng := rng st |}.

Definition set_decoder_sd (sd : state_dict) (st : store) : store :=
  {| encoder_sd := encoder_sd st; decoder_sd := sd;
     training := training st; optimizer_sd := optimizer_sd st;
     grad := grad st; gscaler := gscaler st; rng := rng st |}.

Definition set_optimizer_sd (o : opt_state) (st : store) : store :=
  {| encoder_sd := encoder_sd st; decoder_sd := decoder_sd st;
     training := training st; optimizer_sd := o;
     grad := grad st; gscaler := gscaler st; rng := rng st |}.

(** [optimizer.step()] on the stored gradients. *)
Definition apply_optimizer (st : store) : store :=
  match grad st with
  | None => st
  | Some g =>
      let '(o, (e, d)) :=
        optimizer_step (optimizer_sd st) (encoder_sd st, decoder_sd st) g in
      set_optimizer_sd o (set_decoder_sd d (set_encoder_sd e st))
  end.

Record world := {
  w_store : store;
  w_logs : gmap string value;
  w_ext : W;
  w_trace : list event
}.

Definition set_store (st : store) (w : world) : world :=
  {| w_store := st; w_logs := w_logs w; w_ext := w_ext w;
     w_trace := w_trace w |}.

Definition set_logs (l : gmap string value) (w : world) : world :=
  {| w_store := w_store w; w_logs := l; w_ext := w_ext w;
     w_trace := w_trace w |}.

Definition add_event (e : event) (w : world) : world :=
  {| w_store := w_store w; w_logs := w_logs w; w_ext := w_ext w;
     w_trace := w_trace w ++ [e] |}.

(** *** Computations that may raise; the state survives the exception *)

Definition M (A : Type) := world -> result A * world.

Definition ret {A} (a : A) : M A := fun w => (Ok a, w).

Definition raise {A} (e : exn) : M A := fun w => (Raise e, w).

Definition bind {A B} (m : M A) (k : A -> M B) : M B :=
  fun w =>
    match m w with
    | (Ok a, w') => k a w'
    | (Raise e, w') => (Raise e, w')
    end.

Notation "x <- m ;; k" := (bind m (fun x => k))
  (at level 20, m at level 99, k at level 200, only parsing).
Notation "m ;; k" := (bind m (fun _ => k))
  (at level 100, k at level 200, right associativity, only parsing).

Definition modify (f : world -> world) : M unit := fun w => (Ok tt, f w).

Definition update_store (f : store -> store) : M unit :=
  modify (fun w => set_store (f (w_store w)) w).

Definition emit (e : event) : M unit := modify (add_event e).

(** [logs[key] = v]. *)
Definition log_set (key : string) (v : value) : M unit :=
  modify (fun w => add_event (EvLogSet key v) (set_logs (<[key := v]> (w_logs w)) w)).

Definition when (b : bool) (m : M unit) : M unit := if b then m else ret tt.

(** [for x in xs: body(x)]. *)
Fixpoint for_each {X} (xs : list X) (body : X -> M unit) : M unit :=
  match xs with
  | [] => ret tt
  | x :: rest => body x ;; for_each rest body
  end.

(** [if callbacks:]. *)
Definition truthy {X} (xs : list X) : bool :=
  match xs with [] => false | _ :: _ => true end.

(** *** Callbacks *)

(** What a hook can reach: the shared [logs], the model and optimizer (through
    [logs["model"]] and [logs["optimizer"]]) and the callbacks' own state. *)
Definition view : Type := gmap string value * store * W.

Definition hook : Type := view -> result unit * view.

Record Callback := {
  cb_on_train_begin : hook;
  cb_on_epoch_begin : Z -> hook;
  cb_on_batch_begin : Z -> Z -> hook;
  cb_on_batch_end : Z -> Z -> hook;
  cb_on_epoch_end : Z -> hook;
  cb_on_validation_begin : Z -> hook;
  cb_on_validation_batch_end : Z -> Z -> tensor -> tensor -> tensor -> hook;
  cb_on_validation_end : Z -> hook;
  cb_on_train_end : hook
}.

(** [callback.<hook>(<arguments>, logs)]. *)
Definition dispatch (cb : Callback) (call : hook_call) : hook :=
  match call with
  | on_train_begin => cb_on_train_begin cb
  | on_epoch_begin epoch => cb_on_epoch_begin cb epoch
  | on_batch_begin batch_idx epoch => cb_on_batch_begin cb batch_idx epoch
  | on_batch_end batch_idx epoch => cb_on_batch_end cb batch_idx epoch
  | on_epoch_end epoch => cb_on_epoch_end cb epoch
  | on_validation_begin epoch => cb_on_validation_begin cb epoch
  | on_validation_batch_end epoch batch_idx rmsd fnc mu =>
      cb_on_validation_batch_end cb epoch batch_idx rmsd fnc mu
  | on_validation_end epoch => cb_on_validation_end cb epoch
  | on_train_end => cb_on_train_end cb
  end.

(** One hook invocation: the hook runs on the current [logs], and whatever
    it leaves there is the [logs] of whoever comes next. *)
Definition invoke (idx : nat) (cb : Callback) (call : hook_call) : M unit :=
  fun w =>
    let '(r, (logs', st', ext')) :=
      dispatch cb call (w_logs w, w_store w, w_ext w) in
    (r, {| w_store := st'; w_logs := logs'; w_ext := ext';
           w_trace := w_trace w ++ [EvHook idx call (w_logs w) logs' r] |}).

(** [for callback in callbacks: callback.<hook>(...)], from position [idx]. *)
Fixpoint fire_from (idx : nat) (call : hook_call) (callbacks : list Callback)
  : M unit :=
  match callbacks with
  | [] => ret tt
  | cb :: rest => invoke idx cb call ;; fire_from (S idx) call rest
  end.

Definition fire (call : hook_call) (callbacks : list Callback) : M unit :=
  fire_from 0 call callbacks.

(** *** The [VAE] object *)

Record VAE := {
  enable_amp : bool;
  verbose : bool;
  device : Device.device * Device.device;
  model : model_ref;
  optimizer : obj_id;
  loss_fnc : loss_fn;
  lambda_rec : R;
  comm_rank : Z;
  comm_size : Z
}.

(** [VAE.__init__]. Validation of the hyperparameters and the construction of
    the networks and of the optimizer are PyTorch's and the hyperparameter
    classes': the objects built and their initial state are arguments here. *)
Definition __init__
    (hparams_lambda_rec : R) (loss : option loss_fn) (gpu : Device.gpu_arg)
    (enable_amp verbose : bool)
    (model : model_ref) (optimizer : obj_id)
    (enc0 dec0 : state_dict) (opt0 : opt_state) (rng0 : RNG)
  : result (VAE * store) :=
  match Device._configure_device cuda_is_available gpu with
  | Raise e => Raise e
  | Ok dev =>
      Ok ({| enable_amp := enable_amp;
             verbose := verbose;
             device := dev;
             model := model;
             optimizer := optimizer;
             loss_fnc :=
               match loss with
               | None => Loss.vae_logit_loss F_binary_cross_entropy_with_logits
               | Some f => f
               end;
             lambda_rec := hparams_lambda_rec;
             comm_rank := if dist_is_initialized then dist_rank else 0;
             comm_size := if dist_is_initialized then dist_world_size else 1 |},
          {| encoder_sd := enc0; decoder_sd := dec0; training := true;
             optimizer_sd := opt0; grad := None;
             gscaler := GradScaler.init enable_amp cuda_is_available;
             rng := rng0 |})
  end.

(** *** [VAEModel.forward] *)

Definition reparameterize (mu logvar : tensor) (r : RNG) : tensor * RNG :=
  let std := map (fun lv => exp (0.5 * lv))%R logvar in
  let '(eps, r') := randn_like r std in
  (zip_with Rplus mu (zip_with Rmult eps std), r').

Definition forward (st : store) (x : tensor)
  : (tensor * tensor * tensor * tensor) * store :=
  let '(mu, logvar) := encoder (encoder_sd st) (training st) x in
  let '(z, r') := reparameterize mu logvar (rng st) in
  let x' := decoder (decoder_sd st) (training st) z in
  ((x', z, mu, logvar), set_rng r' st).

(** *** The mixed-precision step *)

(** [self.gscaler.step(self.optimizer)]: a disabled scaler just steps the
    optimizer; an enabled one unscales the gradients and steps only when none
    of them is non-finite. *)
Definition gscaler_step (st : store) : store :=
  let s := gscaler st in
  if GradScaler.enabled s then
    match grad st with
    | None => st
    | Some g =>
        let found := grads_nonfinite g in
        let st1 :=
          set_gscaler (GradScaler.set_found_inf found s)
            (set_grad (Some (unscale (GradScaler.scale s) g)) st) in
        if found then st1 else apply_optimizer st1
    end
  else apply_optimizer st.

Definition gscaler_update (st : store) : store :=
  set_gscaler (GradScaler.update (gscaler st)) st.

(** Forward pass and loss of a batch: [(loss_rec, loss_kld, loss)]. *)
Definition forward_loss (v : VAE) (x : tensor) (st : store)
  : (R * R * R) * store :=
  let '((logit_recon_batch, codes, mu, logvar), st1) := forward st x in
  let '(loss_rec, loss_kld) := loss_fnc v logit_recon_batch x mu logvar in
  let loss := (lambda_rec v * loss_rec + loss_kld)%R in
  ((loss_rec, loss_kld, loss), st1).

(** [zero_grad(); scale(loss).backward(); step(optimizer); update()], after
    a forward pass that started from [st0]. *)
Definition backward_step (v : VAE) (x : tensor) (st0 st : store) : store :=
  let st1 := set_grad None st in
  let g :=
    backward (loss_fnc v) (lambda_rec v) (encoder_sd st0) (decoder_sd st0)
      (training st0) (rng st0) x (GradScaler.loss_factor (gscaler st0)) in
  let st2 := set_grad (Some g) st1 in
  gscaler_update (gscaler_step st2).

(** The forward, loss, backward and optimizer part of a training batch. *)
Definition train_step (v : VAE) (x : tensor) : M (R * R * R) :=
  fun w =>
    let st0 := w_store w in
    let '(ls, st1) := forward_loss v x st0 in
    (Ok ls, set_store (backward_step v x st0 st1) w).

(** The forward and loss part of a validation batch: [(loss, mu)]. *)
Definition valid_step (v : VAE) (x : tensor) : M (R * tensor) :=
  fun w =>
    let '((logit_recon_batch, codes, mu, logvar), st1) := forward (w_store w) x in
    let '(valid_loss_rec, valid_loss_kld) :=
      loss_fnc v logit_recon_batch x mu logvar in
    (Ok ((lambda_rec v * valid_loss_rec + valid_loss_kld)%R, mu),
     set_store st1 w).

(** [len(loader)]. *)
Definition len (loader : list Batch) : Z := Z.of_nat (length loader).

(** *** [VAE._train] *)

(** The body of the batch loop; it returns the new [train_loss]. *)
Definition train_batch (v : VAE) (train_loader : list Batch) (epoch : Z)
    (callbacks : list Callback) (train_loss : R) (batch_idx : Z)
    (token : Batch) : M R :=
  fire (on_batch_begin batch_idx epoch) callbacks ;;
  ls <- train_step v (data token) ;;
  let '(loss_rec, loss_kld, loss) := ls in
  emit (EvLoss Training epoch batch_idx loss) ;;
  let train_loss := (train_loss + loss)%R in
  when (truthy callbacks)
    (log_set "train_loss" (VFloat loss) ;;
     log_set "train_loss_rec" (VFloat loss_rec) ;;
     log_set "train_loss_kld" (VFloat loss_kld) ;;
     log_set "global_step" (VInt ((epoch - 1) * len train_loader + batch_idx))) ;;
  fire (on_batch_end batch_idx epoch) callbacks ;;
  ret train_loss.

(** [for batch_idx, token in enumerate(train_loader)], over the batches still
    to come; [batch_idx] is the loop variable as the loop leaves it, [None]
    while it was never bound. *)
Fixpoint train_loop (v : VAE) (train_loader : list Batch) (epoch : Z)
    (callbacks : list Callback) (todo : list Batch) (next : Z)
    (train_loss : R) (batch_idx : option Z) : M (R * option Z) :=
  match todo with
  | [] => ret (train_loss, batch_idx)
  | token :: todo' =>
      train_loss' <-
        train_batch v train_loader epoch callbacks train_loss next token ;;
      train_loop v train_loader epoch callbacks todo' (next + 1)
        train_loss' (Some next)
  end.

Definition _train (v : VAE) (train_loader : list Batch) (epoch : Z)
    (callbacks : list Callback) : M unit :=
  emit (EvTrainPass epoch) ;;
  update_store (set_training true) ;;
  r <- train_loop v train_loader epoch callbacks train_loader 0 0%R None ;;
  match r with
  | (_, None) => raise (UnboundLocalError "batch_idx")
  | (train_loss, Some batch_idx) =>
      let train_loss_ave := (train_loss / IZR (batch_idx + 1))%R in
      when (truthy callbacks)
        (log_set "train_loss_average" (VFloat train_loss_ave))
  end.

(** *** [VAE._validate] *)

Definition valid_batch (v : VAE) (epoch : Z) (callbacks : list Callback)
    (valid_loss : R) (batch_idx : Z) (token : Batch) : M R :=
  r <- valid_step v (data token) ;;
  let '(loss, mu) := r in
  emit (EvLoss Validation epoch batch_idx loss) ;;
  let valid_loss := (valid_loss + loss)%R in
  fire (on_validation_batch_end epoch batch_idx (rmsd token) (fnc token) mu)
    callbacks ;;
  ret valid_loss.

Fixpoint valid_loop (v : VAE) (epoch : Z) (callbacks : list Callback)
    (todo : list Batch) (next : Z) (valid_loss : R) (batch_idx : option Z)
  : M (R * option Z) :=
  match todo with
  | [] => ret (valid_loss, batch_idx)
  | token :: todo' =>
      valid_loss' <- valid_batch v epoch callbacks valid_loss next token ;;
      valid_loop v epoch callbacks todo' (next + 1) valid_loss' (Some next)
  end.

Definition _validate (v : VAE) (valid_loader : list Batch) (epoch : Z)
    (callbacks : list Callback) : M unit :=
  emit (EvValidPass epoch) ;;
  update_store (set_training false) ;;
  fire (on_validation_begin epoch) callbacks ;;
  r <- valid_loop v epoch callbacks valid_loader 0 0%R None ;;
  match r with
  | (_, None) => raise (UnboundLocalError "batch_idx")
  | (valid_loss, Some batch_idx) =>
      let valid_loss := (valid_loss / IZR (batch_idx + 1))%R in
      when (truthy callbacks) (log_set "valid_loss" (VFloat valid_loss)) ;;
      fire (on_validation_end epoch) callbacks
  end.

(** *** [VAE._load_checkpoint] *)

(** [cp[key]]. *)
Definition getitem (cp : gmap string cp_value) (key : string) : M cp_value :=
  match cp !! key with
  | Some x => ret x
  | None => raise (KeyError key)
  end.

(** [load_state_dict] assigns into the existing module or optimizer. *)
Definition load_module_state (set : state_dict -> store -> store)
    (x : cp_value) : M unit :=
  match x with
  | CpStateDict sd => update_store (set sd)
  | _ => raise (TypeError "load_state_dict")
  end.

Definition load_optimizer_state (x : cp_value) : M unit :=
  match x with
  | CpOptimizer o => update_store (set_optimizer_sd o)
  | _ => raise (TypeError "load_state_dict")
  end.

Definition _load_checkpoint (v : VAE) (path : string) : M cp_value :=
  cp <- match torch_load path with
        | Some cp => ret cp
        | None => raise (FileNotFoundError path)
        end ;;
  enc <- getitem cp "encoder_state_dict" ;;
  load_module_state set_encoder_sd enc ;;
  dec <- getitem cp "decoder_state_dict" ;;
  load_module_state set_decoder_sd dec ;;
  opt <- getitem cp "optimizer_state_dict" ;;
  load_optimizer_state opt ;;
  getitem cp "epoch".

(** *** [VAE.train] *)

(** [if checkpoint:] for a checkpoint that is [None] or a string. *)
Definition checkpoint_given (checkpoint : option string) : option string :=
  match checkpoint with
  | Some path => if String.eqb path "" then None else Some path
  | None => None
  end.

Definition one_epoch (v : VAE) (train_loader valid_loader : list Batch)
    (callbacks : list Callback) (epoch : Z) : M unit :=
  fire (on_epoch_begin epoch) callbacks ;;
  _train v train_loader epoch callbacks ;;
  _validate v valid_loader epoch callbacks ;;
  fire (on_epoch_end epoch) callbacks.

Definition train (v : VAE) (train_loader valid_loader : list Batch)
    (epochs : Z) (checkpoint : option string) (callbacks : list Callback)
  : M unit :=
  modify (set_logs ∅) ;;
  when (truthy callbacks)
    (log_set "model" (VObj (unwrap (model v))) ;;
     log_set "optimizer" (VObj (optimizer v)) ;;
     when dist_is_initialized (log_set "comm_size" (VInt (comm_size v)))) ;;
  start_epoch <-
    match checkpoint_given checkpoint with
    | Some path =>
        e <- _load_checkpoint v path ;;
        match e with
        | CpInt n => ret (1 + n)
        | _ => raise (TypeError "unsupported operand type(s) for +=")
        end
    | None => ret 1
    end ;;
  fire on_train_begin callbacks ;;
  for_each (range start_epoch (epochs + 1))
    (one_epoch v train_loader valid_loader callbacks) ;;
  fire on_train_end callbacks.

(** *** [VAE.compute_losses] *)

(** The body of the batch loop: the forward pass and
    [vae_logit_loss_outlier_helper], whatever [self.loss_fnc] is; it returns
    what the three lists are extended with. *)
Definition losses_batch (v : VAE) (token : Batch) : M (R * R * tensor) :=
  fun w =>
    let '((logit_recon_batch, codes, mu, logvar), st1) :=
      forward (w_store w) (data token) in
    let '(bce_loss, kld_loss) :=
      Loss.vae_logit_loss_outlier_helper F_binary_cross_entropy_with_logits
        logit_recon_batch (data token) mu logvar (lambda_rec v) in
    (Ok (bce_loss, kld_loss, index token), set_store st1 w).

Fixpoint losses_loop (v : VAE) (todo : list Batch)
    (bce_losses kld_losses : list R) (indices : list tensor)
  : M (list R * list R * list tensor) :=
  match todo with
  | [] => ret (bce_losses, kld_losses, indices)
  | token :: todo' =>
      r <- losses_batch v token ;;
      let '(bce_loss, kld_loss, index) := r in
      losses_loop v todo' (bce_losses ++ [bce_loss]) (kld_losses ++ [kld_loss])
        (indices ++ [index])
  end.

Definition compute_losses (v : VAE) (data_loader : list Batch)
    (checkpoint : string) : M (list R * list R * list tensor) :=
  _load_checkpoint v checkpoint ;;
  update_store (set_training false) ;;
  losses_loop v data_loader [] [] [].

(** ** Vocabulary of the statements *)

(** A callback that always returns normally. *)
Definition cb_total (cb : Callback) : Prop :=
  forall call vw, fst (dispatch cb call vw) = Ok tt.

Definition total_loss (l : R * R * R) : R := snd l.

(** One training batch: the loss, then the four entries it logs. *)
Definition batch_skel (logging : bool) (epoch n idx : Z) (l : R * R * R)
  : list event :=
  let '(loss_rec, loss_kld, loss) := l in
  EvLoss Training epoch idx loss ::
  if logging then
    [EvLogSet "train_loss" (VFloat loss);
     EvLogSet "train_loss_rec" (VFloat loss_rec);
     EvLogSet "train_loss_kld" (VFloat loss_kld);
     EvLogSet "global_step" (VInt ((epoch - 1) * n + idx))]
  else [].

Fixpoint batches_skel (logging : bool) (epoch n next : Z)
    (ls : list (R * R * R)) : list event :=
  match ls with
  | [] => []
  | l :: ls' =>
      batch_skel logging epoch n next l ++
      batches_skel logging epoch n (next + 1) ls'
  end.

Definition train_skel (logging : bool) (epoch : Z) (ls : list (R * R * R))
  : list event :=
  EvTrainPass epoch ::
  batches_skel logging epoch (Z.of_nat (length ls)) 0 ls ++
  if logging then
    [EvLogSet "train_loss_average"
       (VFloat (sumR (map total_loss ls) / IZR (Z.of_nat (length ls))))]
  else [].

Fixpoint vbatches_skel (epoch next : Z) (ls : list R) : list event :=
  match ls with
  | [] => []
  | l :: ls' => EvLoss Validation epoch next l :: vbatches_skel epoch (next + 1) ls'
  end.

Definition valid_skel (logging : bool) (epoch : Z) (ls : list R) : list event :=
  EvValidPass epoch ::
  vbatches_skel epoch 0 ls ++
  if logging then
    [EvLogSet "valid_loss" (VFloat (sumR ls / IZR (Z.of_nat (length ls))))]
  else [].

Definition epoch_skel (logging : bool) (epoch : Z)
    (p : list (R * R * R) * list R) : list event :=
  train_skel logging epoch (fst p) ++ valid_skel logging epoch (snd p).

Fixpoint epochs_skel (logging : bool) (epochs : list Z)
    (per : list (list (R * R * R) * list R)) : list event :=
  match epochs, per with
  | e :: es, p :: ps => epoch_skel logging e p ++ epochs_skel logging es ps
  | _, _ => []
  end.

Definition init_skel (v : VAE) (logging : bool) : list event :=
  if logging then
    [EvLogSet "model" (VObj (unwrap (model v)));
     EvLogSet "optimizer" (VObj (optimizer v))] ++
    (if dist_is_initialized then [EvLogSet "comm_size" (VInt (comm_size v))]
     else [])
  else [].

(** The loop variable after a loop over [todo] that started counting at [next]. *)
Definition final_idx {X} (todo : list X) (next : Z) (batch_idx : option Z)
  : option Z :=
  match todo with
  | [] => batch_idx
  | _ :: _ => Some (next + Z.of_nat (length todo) - 1)
  end.

(** The per-epoch losses have one entry per batch of each loader. *)
Definition shaped (train_loader valid_loader : list Batch)
    (per : list (list (R * R * R) * list R)) : Prop :=
  Forall (fun p => length (fst p) = length train_loader /\
                   length (snd p) = length valid_loader) per.

Definition well_formed_checkpoint (cp : gmap string cp_value)
    (enc dec : state_dict) (opt : opt_state) (n : Z) : Prop :=
  cp !! "encoder_state_dict" = Some (CpStateDict enc) /\
  cp !! "decoder_state_dict" = Some (CpStateDict dec) /\
  cp !! "optimizer_state_dict" = Some (CpOptimizer opt) /\
  cp !! "epoch" = Some (CpInt n).

(** The stored states assigned into the live model and optimizer. *)
Definition restore (enc dec : state_dict) (opt : opt_state) (st : store)
  : store :=
  set_optimizer_sd opt (set_decoder_sd dec (set_encoder_sd enc st)).

(** Where a run starts: at epoch 1 on the current state, or after the epoch
    of a well-formed checkpoint on the restored state. *)
Inductive resumes (checkpoint : option string) (st : store)
  : Z -> store -> Prop :=
| resumes_scratch :
    checkpoint_given checkpoint = None ->
    resumes checkpoint st 1 st
| resumes_from path cp enc dec opt n :
    checkpoint_given checkpoint = Some path ->
    torch_load path = Some cp ->
    well_formed_checkpoint cp enc dec opt n ->
    resumes checkpoint st (1 + n) (restore enc dec opt st).

(** The state a run starts its first epoch from, before [on_train_begin]. *)
Definition started (v : VAE) (callbacks : list Callback) (st : store)
    (w : world) : world :=
  {| w_store := st;
     w_logs :=
       if truthy callbacks then
         let l := <["optimizer" := VObj (optimizer v)]>
                    (<["model" := VObj (unwrap (model v))]> ∅) in
         if dist_is_initialized then <["comm_size" := VInt (comm_size v)]> l
         else l
       else ∅;
     w_ext := w_ext w;
     w_trace := w_trace w ++ init_skel v (truthy callbacks) |}.




(** The epoch loop between its [on_train_begin] and [on_train_end] hooks,
    from epoch [start]: what [train] does once [start_epoch] is known. *)
Definition run_from (v : VAE) (train_loader valid_loader : list Batch)
    (epochs : Z) (callbacks : list Callback) (start : Z) : M unit :=
  fire on_train_begin callbacks ;;
  for_each (range start (epochs + 1))
    (one_epoch v train_loader valid_loader callbacks) ;;
  fire on_train_end callbacks.


Definition preserves (I : world -> Prop) {A} (m : M A) : Prop :=
  forall w, I w -> I (snd (m w)).




(** Events are only ever appended. *)
Definition seen (ev : event) (w : world) : Prop := In ev (w_trace w).

(** Which callback an invocation was made on, and at which lifecycle point. *)
Definition invoked (e : event) : option (nat * hook_call) :=
  match e with
  | EvHook idx call _ _ _ => Some (idx, call)
  | _ => None
  end.

(** The gradients the backward pass of this batch produces from state [st]. *)
Definition batch_grads (v : VAE) (x : tensor) (st : store) : grads :=
  backward (loss_fnc v) (lambda_rec v) (encoder_sd st) (decoder_sd st)
    (training st) (rng st) x (GradScaler.loss_factor (gscaler st)).




(** A callback that returns normally and leaves the model, the optimizer
    and the scaler as they are. *)
Definition cb_observer (cb : Callback) : Prop :=
  forall call vw,
    fst (dispatch cb call vw) = Ok tt /\
    snd (fst (snd (dispatch cb call vw))) = snd (fst vw).

(** Two states that agree on everything the computation depends on, after
    computing the same losses. *)
Definition sim (w1 w2 : world) : Prop :=
  w_store w1 = w_store w2 /\
  all_losses (w_trace w1) = all_losses (w_trace w2).

Definition simulates {A} (m1 m2 : M A) : Prop :=
  forall w1 w2, sim w1 w2 ->
    fst (m1 w1) = fst (m2 w2) /\ sim (snd (m1 w1)) (snd (m2 w2)).

(** A step that, as far as the computation goes, does nothing. *)
Definition skips (m : M unit) : Prop :=
  forall w1 w2, sim w1 w2 -> fst (m w1) = Ok tt /\ sim (snd (m w1)) w2.

(** A property of the events that survives whatever happens next. *)
Definition trace_stable (P : list event -> Prop) : Prop :=
  forall tr e, P tr -> P (tr ++ [e]).

(** Whatever the computation raises was raised by the hook invoked last. *)
Definition hook_fault {A} (m : M A) : Prop :=
  forall w e w', m w = (Raise e, w') ->
    exists idx call lin lout,
      last (w_trace w') = Some (EvHook idx call lin lout (Raise e)).

(** ** Reasoning about runs *)

Lemma bind_ok {A B} (m : M A) (k : A -> M B) w a w1 :
  m w = (Ok a, w1) -> bind m k w = k a w1.
Proof. intros E. unfold bind. now rewrite E. Qed.

Lemma bind_raise {A B} (m : M A) (k : A -> M B) w e w1 :
  m w = (Raise e, w1) -> bind m k w = (Raise e, w1).
Proof. intros E. unfold bind. now rewrite E. Qed.

Lemma ctl_app tr1 tr2 : ctl (tr1 ++ tr2) = ctl tr1 ++ ctl tr2.
Proof. apply List.filter_app. Qed.

Lemma ctl_hook tr idx call lin lout r :
  ctl (tr ++ [EvHook idx call lin lout r]) = ctl tr.
Proof. rewrite ctl_app. simpl. apply app_nil_r. Qed.

Lemma ctl_idem tr : ctl (ctl tr) = ctl tr.
Proof.
  unfold ctl. induction tr as [|e tr IH]; simpl; [easy|].
  destruct (negb (is_hook e)) eqn:E; simpl; rewrite ?E, IH; easy.
Qed.

Lemma invoke_total idx cb call w :
  cb_total cb ->
  exists w', invoke idx cb call w = (Ok tt, w') /\
             ctl (w_trace w') = ctl (w_trace w).
Proof.
  intros Ht. unfold invoke.
  specialize (Ht call (w_logs w, w_store w, w_ext w)).
  destruct (dispatch cb call (w_logs w, w_store w, w_ext w))
    as [r [[l st] ext]]; simpl in Ht; subst r.
  eexists; split; [reflexivity|]. simpl. apply ctl_hook.
Qed.

Lemma fire_from_total callbacks :
  Forall cb_total callbacks ->
  forall idx call w,
  exists w', fire_from idx call callbacks w = (Ok tt, w') /\
             ctl (w_trace w') = ctl (w_trace w).
Proof.
  induction 1 as [|cb rest Hcb _ IH]; intros idx call w; simpl.
  - exists w. split; reflexivity.
  - destruct (invoke_total idx cb call w Hcb) as (w1 & E1 & T1).
    destruct (IH (S idx) call w1) as (w2 & E2 & T2).
    exists w2. split; [|congruence].
    rewrite (bind_ok _ _ _ _ _ E1). exact E2.
Qed.

Lemma fire_total callbacks call w :
  Forall cb_total callbacks ->
  exists w', fire call callbacks w = (Ok tt, w') /\
             ctl (w_trace w') = ctl (w_trace w).
Proof. intros H. apply fire_from_total, H. Qed.

(** *** The controller's events of a run whose callbacks return normally *)

Tactic Notation "run_fire" constr(H) ident(w') ident(E) ident(T) :=
  match goal with
  | |- context [bind (fire ?call ?cbs) ?k ?w] =>
      destruct (fire_total cbs call w H) as (w' & E & T);
      rewrite (bind_ok _ _ _ _ _ E)
  | |- context [fire ?call ?cbs ?w] =>
      destruct (fire_total cbs call w H) as (w' & E & T);
      rewrite E
  end.

Lemma train_batch_run v train_loader epoch callbacks train_loss idx token w :
  Forall cb_total callbacks ->
  exists w1 w',
    fire (on_batch_begin idx epoch) callbacks w = (Ok tt, w1) /\
    train_batch v train_loader epoch callbacks train_loss idx token w
      = (Ok (train_loss
             + total_loss (fst (forward_loss v (data token) (w_store w1))))%R,
         w') /\
    ctl (w_trace w') =
      ctl (w_trace w) ++
      batch_skel (truthy callbacks) epoch (len train_loader) idx
        (fst (forward_loss v (data token) (w_store w1))).
Proof.
  intros Ht. unfold train_batch.
  run_fire Ht w1 E1 T1. exists w1.
  unfold bind at 1. unfold train_step.
  destruct (forward_loss v (data token) (w_store w1)) as [[[lr lk] l] st1].
  cbn [fst].
  destruct (truthy callbacks) eqn:Ec.
  - unfold when, emit, log_set, modify, bind at 1 2 3 4 5.
    cbn -[fire "!!"].
    run_fire Ht w2 E2 T2.
    exists w2. split; [exact E1|]. split; [reflexivity|].
    rewrite T2. cbn. rewrite !ctl_app. cbn.
    rewrite <- !app_assoc. cbn. now rewrite T1.
  - unfold when, emit, modify, bind at 1 2. cbn -[fire].
    run_fire Ht w2 E2 T2.
    exists w2. split; [exact E1|]. split; [reflexivity|].
    rewrite T2. cbn. rewrite !ctl_app. cbn. now rewrite T1.
Qed.

Lemma train_batch_total v train_loader epoch callbacks train_loss idx token w :
  Forall cb_total callbacks ->
  exists l w',
    train_batch v train_loader epoch callbacks train_loss idx token w
      = (Ok (train_loss + total_loss l)%R, w') /\
    ctl (w_trace w') =
      ctl (w_trace w) ++
      batch_skel (truthy callbacks) epoch (len train_loader) idx l.
Proof.
  intros Ht.
  destruct (train_batch_run v train_loader epoch callbacks train_loss idx
              token w Ht) as (w1 & w' & _ & E & T).
  eauto.
Qed.

Lemma final_idx_cons {X} (x : X) todo next bi :
  final_idx todo (next + 1) (Some next) = final_idx (x :: todo) next bi.
Proof.
  destruct todo as [|y todo]; unfold final_idx.
  - f_equal. simpl length. lia.
  - f_equal. simpl length. lia.
Qed.

Lemma train_loop_total v train_loader epoch callbacks :
  Forall cb_total callbacks ->
  forall todo next train_loss batch_idx w,
  exists ls w',
    length ls = length todo /\
    train_loop v train_loader epoch callbacks todo next train_loss batch_idx w
      = (Ok (fold_left Rplus (map total_loss ls) train_loss,
             final_idx todo next batch_idx), w') /\
    ctl (w_trace w') =
      ctl (w_trace w) ++
      batches_skel (truthy callbacks) epoch (len train_loader) next ls.
Proof.
  intros Ht. induction todo as [|token todo IH]; intros next tl bi w.
  - exists [], w. simpl. rewrite app_nil_r. auto.
  - simpl train_loop.
    destruct (train_batch_total v train_loader epoch callbacks tl next token w Ht)
      as (l & w1 & E1 & T1).
    rewrite (bind_ok _ _ _ _ _ E1).
    destruct (IH (next + 1) (tl + total_loss l)%R (Some next) w1)
      as (ls & w2 & Hlen & E2 & T2).
    exists (l :: ls), w2. split; [simpl; congruence|]. split.
    + rewrite E2. simpl map. simpl fold_left.
      now rewrite (final_idx_cons token todo next bi).
    + rewrite T2, T1. simpl batches_skel. now rewrite app_assoc.
Qed.

Lemma _train_total v train_loader epoch callbacks w :
  Forall cb_total callbacks ->
  train_loader <> [] ->
  exists ls w',
    length ls = length train_loader /\
    _train v train_loader epoch callbacks w = (Ok tt, w') /\
    ctl (w_trace w') =
      ctl (w_trace w) ++ train_skel (truthy callbacks) epoch ls /\
    (truthy callbacks = true ->
     w_logs w' !! "train_loss_average"%string =
       Some (VFloat (sumR (map total_loss ls) / IZR (len train_loader)))).
Proof.
  intros Ht Hne. unfold _train.
  unfold emit, update_store, modify, bind at 1 2.
  match goal with
  | |- context [bind (train_loop ?v ?tl ?ep ?cbs ?todo ?n ?l ?b) ?k ?w0] =>
      destruct (train_loop_total v tl ep cbs Ht todo n l b w0)
        as (ls & w1 & Hlen & E1 & T1)
  end.
  rewrite (bind_ok _ _ _ _ _ E1).
  exists ls.
  destruct train_loader as [|b0 rest]; [contradiction|].
  unfold final_idx.
  replace (0 + Z.of_nat (length (b0 :: rest)) - 1 + 1)
    with (Z.of_nat (length ls)) by (rewrite Hlen; lia).
  cbn in T1. rewrite ctl_app in T1. cbn in T1.
  unfold train_skel. unfold len in *. rewrite <- Hlen in T1 |- *.
  destruct (truthy callbacks).
  - eexists. split; [reflexivity|]. split; [reflexivity|]. split.
    + cbn. rewrite ctl_app, T1. cbn.
      rewrite <- !app_assoc. reflexivity.
    + intros _. cbn [w_logs set_logs add_event]. apply lookup_insert_eq.
  - eexists. split; [reflexivity|]. split; [reflexivity|]. split.
    + cbn. rewrite T1. rewrite <- !app_assoc. cbn. now rewrite app_nil_r.
    + discriminate.
Qed.

Lemma valid_batch_total v epoch callbacks valid_loss idx token w :
  Forall cb_total callbacks ->
  exists l w',
    valid_batch v epoch callbacks valid_loss idx token w
      = (Ok (valid_loss + l)%R, w') /\
    ctl (w_trace w') = ctl (w_trace w) ++ [EvLoss Validation epoch idx l].
Proof.
  intros Ht. unfold valid_batch.
  unfold bind at 1. unfold valid_step.
  destruct (forward (w_store w) (data token)) as [[[[x' z] mu] logvar] st1].
  destruct (loss_fnc v x' (data token) mu logvar) as [lr lk].
  exists (lambda_rec v * lr + lk)%R.
  unfold emit, modify, bind at 1. cbn -[fire].
  run_fire Ht w2 E2 T2.
  exists w2. split; [reflexivity|].
  rewrite T2. cbn. now rewrite ctl_app.
Qed.

Lemma valid_loop_total v epoch callbacks :
  Forall cb_total callbacks ->
  forall todo next valid_loss batch_idx w,
  exists ls w',
    length ls = length todo /\
    valid_loop v epoch callbacks todo next valid_loss batch_idx w
      = (Ok (fold_left Rplus ls valid_loss,
             final_idx todo next batch_idx), w') /\
    ctl (w_trace w') = ctl (w_trace w) ++ vbatches_skel epoch next ls.
Proof.
  intros Ht. induction todo as [|token todo IH]; intros next vl bi w.
  - exists [], w. simpl. rewrite app_nil_r. auto.
  - simpl valid_loop.
    destruct (valid_batch_total v epoch callbacks vl next token w Ht)
      as (l & w1 & E1 & T1).
    rewrite (bind_ok _ _ _ _ _ E1).
    destruct (IH (next + 1) (vl + l)%R (Some next) w1)
      as (ls & w2 & Hlen & E2 & T2).
    exists (l :: ls), w2. split; [simpl; congruence|]. split.
    + rewrite E2. simpl fold_left.
      now rewrite (final_idx_cons token todo next bi).
    + rewrite T2, T1. simpl vbatches_skel. now rewrite <- app_assoc.
Qed.

Lemma _validate_total v valid_loader epoch callbacks w :
  Forall cb_total callbacks ->
  valid_loader <> [] ->
  exists ls w',
    length ls = length valid_loader /\
    _validate v valid_loader epoch callbacks w = (Ok tt, w') /\
    ctl (w_trace w') =
      ctl (w_trace w) ++ valid_skel (truthy callbacks) epoch ls.
Proof.
  intros Ht Hne. unfold _validate.
  unfold emit, update_store, modify, bind at 1 2.
  run_fire Ht w0 E0 T0.
  destruct (valid_loop_total v epoch callbacks Ht valid_loader 0 0%R None w0)
    as (ls & w1 & Hlen & E1 & T1).
  rewrite (bind_ok _ _ _ _ _ E1).
  exists ls.
  destruct valid_loader as [|b0 rest]; [contradiction|].
  unfold final_idx.
  replace (0 + Z.of_nat (length (b0 :: rest)) - 1 + 1)
    with (Z.of_nat (length ls)) by (rewrite Hlen; lia).
  rewrite T0 in T1. cbn in T1. rewrite ctl_app in T1. cbn in T1.
  unfold valid_skel.
  destruct (truthy callbacks).
  - unfold when, log_set, modify, bind at 1. cbn -[fire].
    run_fire Ht w2 E2 T2.
    exists w2. split; [exact Hlen|]. split; [reflexivity|].
    rewrite T2. cbn. rewrite ctl_app, T1. cbn.
    rewrite <- !app_assoc. reflexivity.
  - unfold when, ret, bind at 1.
    run_fire Ht w2 E2 T2.
    exists w2. split; [exact Hlen|]. split; [reflexivity|].
    rewrite T2, T1. rewrite <- !app_assoc. cbn. now rewrite app_nil_r.
Qed.

Lemma one_epoch_total v train_loader valid_loader callbacks epoch w :
  Forall cb_total callbacks ->
  train_loader <> [] -> valid_loader <> [] ->
  exists p w',
    length (fst p) = length train_loader /\
    length (snd p) = length valid_loader /\
    one_epoch v train_loader valid_loader callbacks epoch w = (Ok tt, w') /\
    ctl (w_trace w') = ctl (w_trace w) ++ epoch_skel (truthy callbacks) epoch p /\
    exists w3, fire (on_epoch_end epoch) callbacks w3 = (Ok tt, w').
Proof.
  intros Ht Ht1 Ht2. unfold one_epoch.
  run_fire Ht w0 E0 T0.
  destruct (_train_total v train_loader epoch callbacks w0 Ht Ht1)
    as (tls & w1 & Hl1 & E1 & T1 & _).
  rewrite (bind_ok _ _ _ _ _ E1).
  destruct (_validate_total v valid_loader epoch callbacks w1 Ht Ht2)
    as (vls & w2 & Hl2 & E2 & T2).
  rewrite (bind_ok _ _ _ _ _ E2).
  destruct (fire_total callbacks (on_epoch_end epoch) w2 Ht) as (w3 & E3 & T3).
  rewrite E3.
  exists (tls, vls), w3. repeat split; try assumption.
  - rewrite T3, T2, T1, T0. unfold epoch_skel. simpl fst. simpl snd.
    now rewrite <- !app_assoc.
  - now exists w2.
Qed.

Lemma epochs_total v train_loader valid_loader callbacks :
  Forall cb_total callbacks ->
  train_loader <> [] -> valid_loader <> [] ->
  forall es w,
  exists per w',
    length per = length es /\
    shaped train_loader valid_loader per /\
    for_each es (one_epoch v train_loader valid_loader callbacks) w
      = (Ok tt, w') /\
    ctl (w_trace w') = ctl (w_trace w) ++ epochs_skel (truthy callbacks) es per.
Proof.
  intros Ht Ht1 Ht2. induction es as [|e es IH]; intros w.
  - exists [], w. simpl. rewrite app_nil_r. repeat split; auto. constructor.
  - simpl for_each.
    destruct (one_epoch_total v train_loader valid_loader callbacks e w Ht Ht1 Ht2)
      as (p & w1 & Hl1 & Hl2 & E1 & T1 & _).
    rewrite (bind_ok _ _ _ _ _ E1).
    destruct (IH w1) as (per & w2 & Hlen & Hsh & E2 & T2).
    exists (p :: per), w2. repeat split.
    + simpl. congruence.
    + constructor; auto.
    + exact E2.
    + rewrite T2, T1. cbn [epochs_skel]. now rewrite <- List.app_assoc.
Qed.

(** *** Loading a well-formed checkpoint *)

Lemma _load_checkpoint_ok v path cp enc dec opt n w :
  torch_load path = Some cp ->
  well_formed_checkpoint cp enc dec opt n ->
  _load_checkpoint v path w
    = (Ok (CpInt n), set_store (restore enc dec opt (w_store w)) w).
Proof.
  intros Hl (He & Hd & Ho & Hn).
  unfold _load_checkpoint, getitem, bind, ret. rewrite Hl.
  cbn -[lookup]. rewrite He. cbn -[lookup]. rewrite Hd. cbn -[lookup].
  rewrite Ho. cbn -[lookup]. rewrite Hn. reflexivity.
Qed.

Lemma train_tail_total v train_loader valid_loader callbacks es w :
  Forall cb_total callbacks ->
  train_loader <> [] -> valid_loader <> [] ->
  exists per w',
    length per = length es /\
    shaped train_loader valid_loader per /\
    (fire on_train_begin callbacks ;;
     for_each es (one_epoch v train_loader valid_loader callbacks) ;;
     fire on_train_end callbacks) w = (Ok tt, w') /\
    ctl (w_trace w') = ctl (w_trace w) ++ epochs_skel (truthy callbacks) es per.
Proof.
  intros Ht Ht1 Ht2.
  run_fire Ht w0 E0 T0.
  destruct (epochs_total v train_loader valid_loader callbacks Ht Ht1 Ht2 es w0)
    as (per & w1 & Hlen & Hsh & E1 & T1).
  rewrite (bind_ok _ _ _ _ _ E1).
  run_fire Ht w2 E2 T2.
  exists per, w2. repeat split; auto. now rewrite T2, T1, T0.
Qed.

Lemma train_unfold v train_loader valid_loader epochs checkpoint callbacks w
    start st :
  resumes checkpoint (w_store w) start st ->
  train v train_loader valid_loader epochs checkpoint callbacks w =
  (fire on_train_begin callbacks ;;
   for_each (range start (epochs + 1))
     (one_epoch v train_loader valid_loader callbacks) ;;
   fire on_train_end callbacks) (started v callbacks st w).
Proof.
  intros Hr. unfold train, started, init_skel.
  destruct Hr as [Hc | path cp enc dec opt n Hc Hl Hwf]; rewrite Hc.
  - destruct (truthy callbacks), dist_is_initialized;
      unfold when, log_set, modify, ret, bind, add_event, set_logs;
      cbn -[fire for_each];
      rewrite <- ?List.app_assoc, ?app_nil_r; reflexivity.
  - pose proof (_load_checkpoint_ok v path cp enc dec opt n) as Hload.
    destruct (truthy callbacks), dist_is_initialized;
      unfold when, log_set, modify, ret, bind;
      cbn -[fire for_each _load_checkpoint];
      rewrite (Hload _ Hl Hwf);
      unfold add_event, set_logs, set_store; cbn -[fire for_each];
      rewrite <- ?List.app_assoc, ?app_nil_r; reflexivity.
Qed.

Lemma ctl_init_skel v logging : ctl (init_skel v logging) = init_skel v logging.
Proof. unfold init_skel. destruct logging, dist_is_initialized; reflexivity. Qed.

(** A whole run whose callbacks return normally, over loaders that are not
    empty: it returns, and these are the controller's events. *)
Lemma train_total v train_loader valid_loader epochs checkpoint callbacks w
    start st :
  Forall cb_total callbacks ->
  train_loader <> [] -> valid_loader <> [] ->
  resumes checkpoint (w_store w) start st ->
  exists per w',
    length per = length (range start (epochs + 1)) /\
    shaped train_loader valid_loader per /\
    train v train_loader valid_loader epochs checkpoint callbacks w
      = (Ok tt, w') /\
    ctl (w_trace w') =
      ctl (w_trace w) ++ init_skel v (truthy callbacks) ++
      epochs_skel (truthy callbacks) (range start (epochs + 1)) per.
Proof.
  intros Ht Ht1 Ht2 Hr.
  rewrite (train_unfold _ _ _ _ _ _ _ _ _ Hr).
  destruct (train_tail_total v train_loader valid_loader callbacks
              (range start (epochs + 1)) (started v callbacks st w) Ht Ht1 Ht2)
    as (per & w' & Hlen & Hsh & E & T).
  exists per, w'. repeat split; auto.
  rewrite T. unfold started. cbn [w_trace].
  now rewrite ctl_app, ctl_init_skel, <- List.app_assoc.
Qed.

(** *** Reading the events *)

Lemma omap_ctl {X} (f : event -> option X) tr :
  (forall e, is_hook e = true -> f e = None) ->
  omap f tr = omap f (ctl tr).
Proof.
  intros Hf. induction tr as [|e tr IH]; [reflexivity|].
  cbn. destruct (is_hook e) eqn:Ee; cbn.
  - now rewrite (Hf e Ee).
  - now rewrite IH.
Qed.

Ltac hook_none := intros [] ?; (discriminate || reflexivity).

Lemma epochs_trained_ctl tr : epochs_trained tr = epochs_trained (ctl tr).
Proof. apply omap_ctl. hook_none. Qed.

Lemma epochs_validated_ctl tr : epochs_validated tr = epochs_validated (ctl tr).
Proof. apply omap_ctl. hook_none. Qed.

Lemma log_writes_ctl key tr : log_writes key tr = log_writes key (ctl tr).
Proof. apply omap_ctl. hook_none. Qed.

Lemma all_log_writes_ctl tr : all_log_writes tr = all_log_writes (ctl tr).
Proof. apply omap_ctl. hook_none. Qed.

Lemma all_losses_ctl tr : all_losses tr = all_losses (ctl tr).
Proof. apply omap_ctl. hook_none. Qed.

Lemma losses_ctl ph epoch tr : losses ph epoch tr = losses ph epoch (ctl tr).
Proof. apply omap_ctl. hook_none. Qed.

Lemma range_nil a b : b <= a -> range a b = [].
Proof. intros H. unfold range. now replace (Z.to_nat (b - a)) with 0%nat by lia. Qed.

Lemma range_cons a b : a < b -> range a b = a :: range (a + 1) b.
Proof.
  intros H. unfold range.
  replace (Z.to_nat (b - a)) with (S (Z.to_nat (b - (a + 1)))) by lia.
  cbn [seq map]. f_equal; [lia|].
  rewrite <- seq_shift, List.map_map. apply List.map_ext. intros i. lia.
Qed.

Lemma range_length a b : length (range a b) = Z.to_nat (b - a).
Proof. unfold range. now rewrite length_map, length_seq. Qed.

Lemma range_app a b c : a <= b -> b <= c -> range a b ++ range b c = range a c.
Proof.
  intros Hab Hbc. remember (Z.to_nat (b - a)) as n eqn:Hn.
  revert a Hn Hab. induction n as [|n IH]; intros a Hn Hab.
  - replace b with a by lia. now rewrite range_nil by lia.
  - rewrite (range_cons a b), (range_cons a c) by lia.
    cbn [app]. f_equal. apply IH; lia.
Qed.

Section Projections.
Context {X : Type} (f : event -> option X).

(** A reading that ignores everything a batch leaves behind. *)
Hypothesis f_loss : forall ph ep i l, f (EvLoss ph ep i l) = None.
Hypothesis f_batch_logs : forall k v,
  k = "train_loss"%string \/ k = "train_loss_rec"%string \/
  k = "train_loss_kld"%string \/ k = "global_step"%string ->
  f (EvLogSet k v) = None.

Lemma omap_batches_skel logging epoch n next ls :
  omap f (batches_skel logging epoch n next ls) = [].
Proof.
  revert next. induction ls as [|[[lr lk] l] ls IH]; intros next; [reflexivity|].
  cbn [batches_skel]. rewrite omap_app, IH, app_nil_r.
  unfold batch_skel. destruct logging; cbn; rewrite ?f_loss, ?f_batch_logs; auto.
Qed.

Lemma omap_vbatches_skel epoch next ls : omap f (vbatches_skel epoch next ls) = [].
Proof.
  revert next. induction ls as [|l ls IH]; intros next; [reflexivity|].
  cbn. now rewrite f_loss, IH.
Qed.

Lemma omap_train_skel logging epoch ls :
  omap f (train_skel logging epoch ls) =
  omap f (EvTrainPass epoch ::
          if logging then
            [EvLogSet "train_loss_average"
               (VFloat (sumR (map total_loss ls) / IZR (Z.of_nat (length ls))))]
          else []).
Proof.
  unfold train_skel. change (?e :: ?a ++ ?b) with ([e] ++ a ++ b).
  rewrite !omap_app, omap_batches_skel. cbn.
  destruct (f (EvTrainPass epoch)); reflexivity.
Qed.

Lemma omap_valid_skel logging epoch ls :
  omap f (valid_skel logging epoch ls) =
  omap f (EvValidPass epoch ::
          if logging then
            [EvLogSet "valid_loss"
               (VFloat (sumR ls / IZR (Z.of_nat (length ls))))]
          else []).
Proof.
  unfold valid_skel. change (?e :: ?a ++ ?b) with ([e] ++ a ++ b).
  rewrite !omap_app, omap_vbatches_skel. cbn.
  destruct (f (EvValidPass epoch)); reflexivity.
Qed.

End Projections.

Ltac batch_keys :=
  try (intros; reflexivity);
  try (intros ? ? [->|[->|[->| ->]]]; reflexivity).

Lemma epochs_trained_skel logging es : forall per,
  length per = length es ->
  epochs_trained (epochs_skel logging es per) = es.
Proof.
  induction es as [|e es IH]; intros [|p per] Hlen; try discriminate;
    [reflexivity|].
  cbn [epochs_skel]. unfold epochs_trained, epoch_skel in *.
  rewrite !omap_app, omap_train_skel, omap_valid_skel by batch_keys.
  rewrite IH by (simpl in Hlen; lia). destruct logging; reflexivity.
Qed.

Lemma epochs_validated_skel logging es : forall per,
  length per = length es ->
  epochs_validated (epochs_skel logging es per) = es.
Proof.
  induction es as [|e es IH]; intros [|p per] Hlen; try discriminate;
    [reflexivity|].
  cbn [epochs_skel]. unfold epochs_validated, epoch_skel in *.
  rewrite !omap_app, omap_train_skel, omap_valid_skel by batch_keys.
  rewrite IH by (simpl in Hlen; lia). destruct logging; reflexivity.
Qed.





Lemma epochs_trained_init v logging : epochs_trained (init_skel v logging) = [].
Proof. unfold init_skel. destruct logging, dist_is_initialized; reflexivity. Qed.

Lemma epochs_validated_init v logging :
  epochs_validated (init_skel v logging) = [].
Proof. unfold init_skel. destruct logging, dist_is_initialized; reflexivity. Qed.

Lemma train_epochs v train_loader valid_loader epochs checkpoint callbacks w
    start st :
  Forall cb_total callbacks ->
  train_loader <> [] -> valid_loader <> [] ->
  resumes checkpoint (w_store w) start st ->
  exists w',
    train v train_loader valid_loader epochs checkpoint callbacks w
      = (Ok tt, w') /\
    epochs_trained (w_trace w') =
      epochs_trained (w_trace w) ++ range start (epochs + 1) /\
    epochs_validated (w_trace w') =
      epochs_validated (w_trace w) ++ range start (epochs + 1).
Proof.
  intros Ht Ht1 Ht2 Hr.
  destruct (train_total v train_loader valid_loader epochs checkpoint callbacks
              w start st Ht Ht1 Ht2 Hr) as (per & w' & Hlen & _ & E & T).
  exists w'. split; [exact E|].
  rewrite (epochs_trained_ctl (w_trace w')), (epochs_validated_ctl (w_trace w')), T.
  unfold epochs_trained at 1, epochs_validated at 1. rewrite !omap_app.
  fold (epochs_trained (ctl (w_trace w))) (epochs_validated (ctl (w_trace w))).
  rewrite <- epochs_trained_ctl, <- epochs_validated_ctl.
  fold (epochs_trained (init_skel v (truthy callbacks)))
       (epochs_validated (init_skel v (truthy callbacks))).
  rewrite epochs_trained_init, epochs_validated_init.
  fold (epochs_trained (epochs_skel (truthy callbacks) (range start (epochs + 1)) per))
       (epochs_validated (epochs_skel (truthy callbacks) (range start (epochs + 1)) per)).
  now rewrite epochs_trained_skel, epochs_validated_skel by exact Hlen.
Qed.

(** C1. Without a checkpoint the epoch loop runs over 1..epochs. With a
    checkpoint recording epoch [E1] the stored states are assigned into the
    live model and optimizer (the objects [logs] refers to stay the ones the
    controller holds) and the loop runs over E1+1..epochs. Training [E1]
    epochs and then resuming up to [E] consumes the epochs 1..E, like a
    single run of [E] epochs, and ends on the same epoch. *)
Theorem train_resume v train_loader valid_loader callbacks E1 E path cp
    enc dec opt :
  Forall cb_total callbacks ->
  train_loader <> [] -> valid_loader <> [] ->
  0 <= E1 <= E ->
  path <> ""%string ->
  torch_load path = Some cp ->
  well_formed_checkpoint cp enc dec opt E1 ->
  (forall w, exists w',
     train v train_loader valid_loader E None callbacks w = (Ok tt, w') /\
     epochs_trained (w_trace w') = epochs_trained (w_trace w) ++ range 1 (E + 1) /\
     epochs_validated (w_trace w') =
       epochs_validated (w_trace w) ++ range 1 (E + 1)) /\
  (forall w,
     train v train_loader valid_loader E (Some path) callbacks w =
       run_from v train_loader valid_loader E callbacks (E1 + 1)
         (started v callbacks (restore enc dec opt (w_store w)) w) /\
     (truthy callbacks = true ->
      w_logs (started v callbacks (restore enc dec opt (w_store w)) w)
        !! "model"%string = Some (VObj (unwrap (model v))) /\
      w_logs (started v callbacks (restore enc dec opt (w_store w)) w)
        !! "optimizer"%string = Some (VObj (optimizer v))) /\
     exists w',
       train v train_loader valid_loader E (Some path) callbacks w = (Ok tt, w') /\
       epochs_trained (w_trace w') =
         epochs_trained (w_trace w) ++ range (E1 + 1) (E + 1) /\
       epochs_validated (w_trace w') =
         epochs_validated (w_trace w) ++ range (E1 + 1) (E + 1)) /\
  (forall w, exists w1 w2 wE,
     train v train_loader valid_loader E1 None callbacks w = (Ok tt, w1) /\
     train v train_loader valid_loader E (Some path) callbacks w1 = (Ok tt, w2) /\
     train v train_loader valid_loader E None callbacks w = (Ok tt, wE) /\
     epochs_trained (w_trace w2) = epochs_trained (w_trace w) ++ range 1 (E + 1) /\
     epochs_trained (w_trace w2) = epochs_trained (w_trace wE) /\
     epochs_validated (w_trace w2) = epochs_validated (w_trace wE) /\
     last (epochs_trained (w_trace w2)) = last (epochs_trained (w_trace wE))).
Proof.
  intros Ht Ht1 Ht2 HE Hpath Hload Hwf.
  assert (Hgiven : checkpoint_given (Some path) = Some path).
  { unfold checkpoint_given. destruct (String.eqb_spec path ""); congruence. }
  assert (Hfresh : forall epochs w, exists w',
     train v train_loader valid_loader epochs None callbacks w = (Ok tt, w') /\
     epochs_trained (w_trace w') =
       epochs_trained (w_trace w) ++ range 1 (epochs + 1) /\
     epochs_validated (w_trace w') =
       epochs_validated (w_trace w) ++ range 1 (epochs + 1)).
  { intros epochs w.
    apply (train_epochs v train_loader valid_loader epochs None callbacks w 1
             (w_store w)); auto.
    now constructor. }
  assert (Hres : forall w,
     resumes (Some path) (w_store w) (1 + E1) (restore enc dec opt (w_store w))).
  { intros w. econstructor; eauto. }
  assert (Hresumed : forall w, exists w',
     train v train_loader valid_loader E (Some path) callbacks w = (Ok tt, w') /\
     epochs_trained (w_trace w') =
       epochs_trained (w_trace w) ++ range (E1 + 1) (E + 1) /\
     epochs_validated (w_trace w') =
       epochs_validated (w_trace w) ++ range (E1 + 1) (E + 1)).
  { intros w. rewrite (Z.add_comm E1 1).
    apply (train_epochs v train_loader valid_loader E (Some path) callbacks w
             (1 + E1) (restore enc dec opt (w_store w))); auto. }
  split; [apply Hfresh|]. split.
  - intros w. split; [|split; [|apply Hresumed]].
    + rewrite (Z.add_comm E1 1). apply train_unfold, Hres.
    + intros Hc. unfold started. cbn [w_logs]. rewrite Hc.
      destruct dist_is_initialized; split; reflexivity.
  - intros w.
    destruct (Hfresh E1 w) as (w1 & R1 & T1 & V1).
    destruct (Hresumed w1) as (w2 & R2 & T2 & V2).
    destruct (Hfresh E w) as (wE & RE & TE & VE).
    exists w1, w2, wE.
    assert (Hsplit : range 1 (E1 + 1) ++ range (E1 + 1) (E + 1) = range 1 (E + 1))
      by (apply range_app; lia).
    assert (T2' : epochs_trained (w_trace w2)
                  = epochs_trained (w_trace w) ++ range 1 (E + 1))
      by (now rewrite T2, T1, <- List.app_assoc, Hsplit).
    assert (V2' : epochs_validated (w_trace w2)
                  = epochs_validated (w_trace w) ++ range 1 (E + 1))
      by (now rewrite V2, V1, <- List.app_assoc, Hsplit).
    repeat split; auto; congruence.
Qed.

Lemma reading_delta {X} (f : event -> option X) tr tr' d :
  (forall e, is_hook e = true -> f e = None) ->
  ctl tr' = ctl tr ++ d ->
  omap f tr' = omap f tr ++ omap f d.
Proof.
  intros Hf Hd. rewrite (omap_ctl f tr' Hf), Hd, omap_app.
  now rewrite <- (omap_ctl f tr Hf).
Qed.


Lemma losses_delta ph epoch tr tr' d :
  ctl tr' = ctl tr ++ d ->
  losses ph epoch tr' = losses ph epoch tr ++ losses ph epoch d.
Proof. apply reading_delta. hook_none. Qed.














(** *** Invariants of a run, whether it returns or raises *)

Section Invariant.
Variable I : world -> Prop.

Lemma preserves_ret {A} (a : A) : preserves I (ret a).
Proof. intros w H. exact H. Qed.

Lemma preserves_raise {A} e : preserves I (@raise A e).
Proof. intros w H. exact H. Qed.

Lemma preserves_bind {A B} (m : M A) (k : A -> M B) :
  preserves I m -> (forall a, preserves I (k a)) -> preserves I (bind m k).
Proof.
  intros Hm Hk w H. unfold bind. specialize (Hm w H).
  destruct (m w) as [[a|e] w1]; cbn in *; [now apply Hk|exact Hm].
Qed.

Lemma preserves_modify f : (forall w, I w -> I (f w)) -> preserves I (modify f).
Proof. intros Hf w H. cbn. now apply Hf. Qed.

Lemma preserves_when b m : (b = true -> preserves I m) -> preserves I (when b m).
Proof. destruct b; intros H; [now apply H|apply preserves_ret]. Qed.

Lemma preserves_for_each {X} (xs : list X) body :
  (forall x, preserves I (body x)) -> preserves I (for_each xs body).
Proof.
  intros Hb. induction xs as [|x xs IH]; [apply preserves_ret|].
  cbn. apply preserves_bind; auto.
Qed.

(** What the controller does on its own, and what its callbacks do. *)
Variable callbacks : list Callback.
Hypothesis I_store : forall st w, I w -> I (set_store st w).
Hypothesis I_pass : forall w epoch,
  I w -> I (add_event (EvTrainPass epoch) w) /\ I (add_event (EvValidPass epoch) w).
Hypothesis I_loss : forall w ph epoch i l, I w -> I (add_event (EvLoss ph epoch i l) w).
Hypothesis I_log : truthy callbacks = true ->
  forall key x, preserves I (log_set key x).
Hypothesis I_fire : forall call, preserves I (fire call callbacks).

Lemma preserves_train_step v x : preserves I (train_step v x).
Proof.
  intros w H. unfold train_step.
  destruct (forward_loss v x (w_store w)) as [ls st1]. cbn. now apply I_store.
Qed.

Lemma preserves_valid_step v x : preserves I (valid_step v x).
Proof.
  intros w H. unfold valid_step.
  destruct (forward (w_store w) x) as [[[[x' z] mu] logvar] st1].
  destruct (loss_fnc v x' x mu logvar). cbn. now apply I_store.
Qed.

Lemma preserves_train_batch v train_loader epoch train_loss idx token :
  preserves I (train_batch v train_loader epoch callbacks train_loss idx token).
Proof.
  unfold train_batch.
  apply preserves_bind; [apply I_fire|intros _].
  apply preserves_bind; [apply preserves_train_step|intros [[lr lk] l]].
  apply preserves_bind; [apply preserves_modify; intros; now apply I_loss|intros _].
  apply preserves_bind.
  - apply preserves_when. intros Hc.
    repeat (apply preserves_bind; [now apply I_log|intros _]). now apply I_log.
  - intros _. apply preserves_bind; [apply I_fire|intros _; apply preserves_ret].
Qed.

Lemma preserves_train_loop v train_loader epoch todo :
  forall next train_loss batch_idx,
  preserves I (train_loop v train_loader epoch callbacks todo next train_loss batch_idx).
Proof.
  induction todo as [|token todo IH]; intros; cbn; [apply preserves_ret|].
  apply preserves_bind; [apply preserves_train_batch|intros; apply IH].
Qed.

Lemma preserves__train v train_loader epoch :
  preserves I (_train v train_loader epoch callbacks).
Proof.
  unfold _train.
  apply preserves_bind; [apply preserves_modify; intros; now apply I_pass|intros _].
  apply preserves_bind; [apply preserves_modify; intros; now apply I_store|intros _].
  apply preserves_bind; [apply preserves_train_loop|intros [tl [b|]]].
  - apply preserves_when. intros Hc. now apply I_log.
  - apply preserves_raise.
Qed.

Lemma preserves_valid_loop v epoch todo :
  forall next valid_loss batch_idx,
  preserves I (valid_loop v epoch callbacks todo next valid_loss batch_idx).
Proof.
  induction todo as [|token todo IH]; intros; cbn; [apply preserves_ret|].
  apply preserves_bind; [|intros; apply IH].
  unfold valid_batch.
  apply preserves_bind; [apply preserves_valid_step|intros [l mu]].
  apply preserves_bind; [apply preserves_modify; intros; now apply I_loss|intros _].
  apply preserves_bind; [apply I_fire|intros _; apply preserves_ret].
Qed.

Lemma preserves__validate v valid_loader epoch :
  preserves I (_validate v valid_loader epoch callbacks).
Proof.
  unfold _validate.
  apply preserves_bind; [apply preserves_modify; intros; now apply I_pass|intros _].
  apply preserves_bind; [apply preserves_modify; intros; now apply I_store|intros _].
  apply preserves_bind; [apply I_fire|intros _].
  apply preserves_bind; [apply preserves_valid_loop|intros [vl [b|]]].
  - apply preserves_bind; [|intros _; apply I_fire].
    apply preserves_when. intros Hc. now apply I_log.
  - apply preserves_raise.
Qed.

Lemma preserves__load_checkpoint v path : preserves I (_load_checkpoint v path).
Proof.
  assert (Hget : forall cp key, preserves I (getitem cp key)).
  { intros cp key. unfold getitem.
    destruct (cp !! key); [apply preserves_ret|apply preserves_raise]. }
  assert (Hmod : forall set x, preserves I (load_module_state set x)).
  { intros set []; cbn; try apply preserves_raise.
    apply preserves_modify. intros; now apply I_store. }
  unfold _load_checkpoint.
  apply preserves_bind.
  { destruct (torch_load path); [apply preserves_ret|apply preserves_raise]. }
  intros cp.
  apply preserves_bind; [apply Hget|intros enc].
  apply preserves_bind; [apply Hmod|intros _].
  apply preserves_bind; [apply Hget|intros dec].
  apply preserves_bind; [apply Hmod|intros _].
  apply preserves_bind; [apply Hget|intros opt].
  apply preserves_bind; [|intros _; apply Hget].
  destruct opt; cbn; try apply preserves_raise.
  apply preserves_modify. intros; now apply I_store.
Qed.

Lemma preserves_one_epoch v train_loader valid_loader epoch :
  preserves I (one_epoch v train_loader valid_loader callbacks epoch).
Proof.
  unfold one_epoch.
  apply preserves_bind; [apply I_fire|intros _].
  apply preserves_bind; [apply preserves__train|intros _].
  apply preserves_bind; [apply preserves__validate|intros _; apply I_fire].
Qed.

(** The run from the freshly made [logs] on. *)
Lemma preserves_train v train_loader valid_loader epochs checkpoint
    (I0 : world -> Prop) :
  (forall w, I0 w -> I (set_logs ∅ w)) ->
  forall w, I0 w ->
  I (snd (train v train_loader valid_loader epochs checkpoint callbacks w)).
Proof.
  intros Hinit w H0. unfold train.
  unfold bind at 1. cbn [modify].
  match goal with |- I (snd (?m (set_logs ∅ w))) =>
    cut (preserves I m); [intros Hm; apply Hm, Hinit, H0|] end.
  apply preserves_bind.
  { apply preserves_when. intros Hc.
    repeat (apply preserves_bind; [now apply I_log|intros _]).
    apply preserves_when. intros _. now apply I_log. }
  intros _. apply preserves_bind.
  { destruct (checkpoint_given checkpoint); [|apply preserves_ret].
    apply preserves_bind; [apply preserves__load_checkpoint|].
    intros []; try apply preserves_raise. apply preserves_ret. }
  intros start. apply preserves_bind; [apply I_fire|intros _].
  apply preserves_bind; [|intros _; apply I_fire].
  apply preserves_for_each. intros epoch. apply preserves_one_epoch.
Qed.

End Invariant.

(** *** Hook invocations: order and shared [logs] *)











Lemma fire_from_events call : forall callbacks idx w,
  Forall cb_total callbacks ->
  exists d w',
    fire_from idx call callbacks w = (Ok tt, w') /\
    w_trace w' = w_trace w ++ d /\
    map invoked d = map (fun i => Some (i, call)) (seq idx (length callbacks)).
Proof.
  induction callbacks as [|cb rest IH]; intros idx w Ht.
  - exists [], w. cbn. now rewrite app_nil_r.
  - inversion Ht as [|? ? Hcb Hrest]; subst.
    cbn [fire_from]. unfold bind, invoke.
    specialize (Hcb call (w_logs w, w_store w, w_ext w)).
    destruct (dispatch cb call (w_logs w, w_store w, w_ext w))
      as [r [[l st] ext]]; cbn in Hcb; subst r.
    match goal with |- context [fire_from _ _ _ ?w1] =>
      destruct (IH (S idx) w1 Hrest) as (d & w' & E & T & Hd) end.
    exists (EvHook idx call (w_logs w) l (Ok tt) :: d), w'.
    split; [exact E|]. split.
    + rewrite T. cbn. now rewrite <- List.app_assoc.
    + cbn. now rewrite Hd.
Qed.


(** *** The mixed-precision step on non-finite gradients *)

Lemma forward_store st x :
  snd (forward st x) = set_rng (rng (snd (forward st x))) st.
Proof.
  unfold forward.
  destruct (encoder (encoder_sd st) (training st) x) as [mu logvar].
  destruct (reparameterize mu logvar (rng st)) as [z r']. reflexivity.
Qed.

Lemma forward_loss_store v x st :
  snd (forward_loss v x st) = set_rng (rng (snd (forward st x))) st.
Proof.
  unfold forward_loss. pose proof (forward_store st x) as H.
  destruct (forward st x) as [[[[x' z] mu] logvar] st1].
  destruct (loss_fnc v x' x mu logvar) as [lr lk]. exact H.
Qed.

Lemma train_step_skips v x w :
  GradScaler.enabled (gscaler (w_store w)) = true ->
  (0 < GradScaler.scale (gscaler (w_store w)))%R ->
  (GradScaler.backoff_factor (gscaler (w_store w)) < 1)%R ->
  grads_nonfinite (batch_grads v x (w_store w)) = true ->
  exists ls w',
    train_step v x w = (Ok ls, w') /\
    ls = fst (forward_loss v x (w_store w)) /\
    encoder_sd (w_store w') = encoder_sd (w_store w) /\
    decoder_sd (w_store w') = decoder_sd (w_store w) /\
    optimizer_sd (w_store w') = optimizer_sd (w_store w) /\
    (GradScaler.scale (gscaler (w_store w'))
       < GradScaler.scale (gscaler (w_store w)))%R.
Proof.
  intros Hen Hpos Hback Hinf. unfold train_step.
  pose proof (forward_loss_store v x (w_store w)) as Hst.
  destruct (forward_loss v x (w_store w)) as [ls st1]. cbn [snd fst] in *.
  eexists ls, _. split; [reflexivity|]. split; [reflexivity|].
  subst st1. unfold backward_step, gscaler_update, gscaler_step.
  fold (batch_grads v x (w_store w)).
  cbn [gscaler set_grad set_rng grad]. rewrite Hen, Hinf.
  cbn [set_store w_store gscaler set_gscaler encoder_sd decoder_sd optimizer_sd].
  unfold GradScaler.update. cbn [GradScaler.enabled GradScaler.set_found_inf
    GradScaler.found_inf GradScaler.scale GradScaler.backoff_factor
    GradScaler.set_scale]. rewrite Hen.
  cbn [GradScaler.scale GradScaler.set_scale].
  repeat split; try reflexivity.
  nra.
Qed.

(** A disabled scaler steps the optimizer whatever the gradients are. *)
Lemma disabled_scaler_steps v x w :
  GradScaler.enabled (gscaler (w_store w)) = false ->
  w_store (snd (train_step v x w)) =
    gscaler_update
      (apply_optimizer
         (set_grad (Some (batch_grads v x (w_store w)))
            (set_rng (rng (snd (forward (w_store w) x))) (w_store w)))).
Proof.
  intros Hoff. unfold train_step.
  pose proof (forward_loss_store v x (w_store w)) as Hst.
  destruct (forward_loss v x (w_store w)) as [ls st1]. cbn [snd fst] in *.
  subst st1. unfold backward_step, gscaler_step.
  fold (batch_grads v x (w_store w)).
  cbn [gscaler set_grad set_rng set_store w_store]. now rewrite Hoff.
Qed.

(** C3. With the gradient scaler enabled, a batch whose backward pass leaves
    non-finite gradients takes no optimizer step: the weights and the
    optimizer state are as before and the loss scale is strictly smaller.
    The step returns normally, and the batch's loss is added to the running
    [train_loss] like any other. *)
Theorem nonfinite_gradients_skip_step v train_loader epoch callbacks
    train_loss batch_idx token w w1 :
  Forall cb_total callbacks ->
  fire (on_batch_begin batch_idx epoch) callbacks w = (Ok tt, w1) ->
  GradScaler.enabled (gscaler (w_store w1)) = true ->
  (0 < GradScaler.scale (gscaler (w_store w1)))%R ->
  (GradScaler.backoff_factor (gscaler (w_store w1)) < 1)%R ->
  grads_nonfinite (batch_grads v (data token) (w_store w1)) = true ->
  exists loss_rec loss_kld loss w2 w',
    train_step v (data token) w1 = (Ok (loss_rec, loss_kld, loss), w2) /\
    encoder_sd (w_store w2) = encoder_sd (w_store w1) /\
    decoder_sd (w_store w2) = decoder_sd (w_store w1) /\
    optimizer_sd (w_store w2) = optimizer_sd (w_store w1) /\
    (GradScaler.scale (gscaler (w_store w2))
       < GradScaler.scale (gscaler (w_store w1)))%R /\
    train_batch v train_loader epoch callbacks train_loss batch_idx token w
      = (Ok (train_loss + loss)%R, w') /\
    losses Training epoch (w_trace w') =
      losses Training epoch (w_trace w) ++ [loss].
Proof.
  intros Ht E1 Hen Hpos Hback Hinf.
  destruct (train_step_skips v (data token) w1 Hen Hpos Hback Hinf)
    as ([[lr lk] l] & w2 & E2 & Hls & He & Hd & Ho & Hs).
  destruct (train_batch_run v train_loader epoch callbacks train_loss
              batch_idx token w Ht) as (w1' & w' & E1' & E & T).
  assert (w1' = w1) as -> by congruence.
  rewrite <- Hls in E, T. cbn [total_loss snd] in E.
  exists lr, lk, l, w2, w'. repeat split; auto.
  rewrite (losses_delta _ _ _ _ _ T).
  f_equal. unfold batch_skel, losses.
  destruct (truthy callbacks); cbn; rewrite Z.eqb_refl; reflexivity.
Qed.

(** *** The loss of a batch *)

Lemma kld_terms_zero n :
  Loss.kld_terms (repeat 0%R n) (repeat 0%R n) = repeat 0%R n.
Proof.
  induction n as [|n IH]; [reflexivity|].
  cbn [repeat]. unfold Loss.kld_terms in *. cbn [zip_with]. rewrite IH.
  f_equal. rewrite exp_0. lra.
Qed.

Lemma torch_sum_zero n : Loss.torch_sum (repeat 0%R n) = 0%R.
Proof.
  induction n as [|n IH]; [reflexivity|].
  cbn. unfold Loss.torch_sum in IH. rewrite IH. lra.
Qed.

Lemma KLD_zero n : Loss.KLD (repeat 0%R n) (repeat 0%R n) = 0%R.
Proof.
  unfold Loss.KLD, Loss.torch_mean. rewrite kld_terms_zero, torch_sum_zero.
  unfold Rdiv. lra.
Qed.

(** C4, as the code has it. For a controller built without a loss of its own,
    the loss of every training and validation batch is
    [lambda_rec * BCE + KLD], with [BCE] the binary cross-entropy taken on the
    decoder's logits against the batch and
    [KLD = -0.5 * mean(1 + logvar - mu^2 - exp(logvar))]; and [KLD] is 0 for
    [mu = logvar = 0]. *)
Theorem default_loss_formula hparams_lambda_rec gpu amp verb model_obj
    optimizer_obj enc0 dec0 opt0 rng0 v st0 :
  __init__ hparams_lambda_rec None gpu amp verb model_obj optimizer_obj
    enc0 dec0 opt0 rng0 = Ok (v, st0) ->
  (forall x w,
     let '(logits, _, mu, logvar) := fst (forward (w_store w) x) in
     let BCE := F_binary_cross_entropy_with_logits logits x in
     let KLD := (-0.5 * Loss.torch_mean
                          (zip_with (fun m lv => 1 + lv - m ^ 2 - exp lv)
                             mu logvar))%R in
     fst (train_step v x w)
       = Ok (BCE, KLD, (hparams_lambda_rec * BCE + KLD)%R) /\
     fst (valid_step v x w) = Ok ((hparams_lambda_rec * BCE + KLD)%R, mu)) /\
  (forall n, (0 < n)%nat -> Loss.KLD (repeat 0%R n) (repeat 0%R n) = 0%R).
Proof.
  intros Hinit. unfold __init__ in Hinit.
  destruct (Device._configure_device cuda_is_available gpu) as [dev|e];
    [|discriminate].
  injection Hinit as <- <-.
  split; [|intros n _; apply KLD_zero].
  intros x w. unfold train_step, valid_step, forward_loss.
  destruct (forward (w_store w) x) as [[[[logits z] mu] logvar] st1].
  cbn. split; reflexivity.
Qed.

(** *** A checkpoint with a missing field *)


Lemma invoked_init v logging : omap invoked (init_skel v logging) = [].
Proof. unfold init_skel. destruct logging, dist_is_initialized; reflexivity. Qed.


(** *** Runs with and without callbacks *)

Lemma sim_ret {A} (a : A) : simulates (ret a) (ret a).
Proof. intros w1 w2 H. split; [reflexivity|exact H]. Qed.

Lemma sim_raise {A} e : simulates (@raise A e) (@raise A e).
Proof. intros w1 w2 H. split; [reflexivity|exact H]. Qed.

Lemma sim_bind {A B} (m1 m2 : M A) (k1 k2 : A -> M B) :
  simulates m1 m2 -> (forall a, simulates (k1 a) (k2 a)) ->
  simulates (bind m1 k1) (bind m2 k2).
Proof.
  intros Hm Hk w1 w2 H. unfold bind. destruct (Hm w1 w2 H) as [Hr Hs].
  destruct (m1 w1) as [[a1|e1] w1'], (m2 w2) as [[a2|e2] w2'];
    cbn in Hr, Hs; try discriminate.
  - injection Hr as ->. now apply Hk.
  - injection Hr as ->. split; [reflexivity|exact Hs].
Qed.

(** Skipping a step that returns normally and keeps the states related. *)
Lemma sim_skip_l {A} (m1 : M unit) (k1 : M A) (m2 : M A) :
  (forall w1 w2, sim w1 w2 ->
     fst (m1 w1) = Ok tt /\ sim (snd (m1 w1)) w2) ->
  simulates k1 m2 ->
  simulates (bind m1 (fun _ => k1)) m2.
Proof.
  intros Hm Hk w1 w2 H. unfold bind. destruct (Hm w1 w2 H) as [Hr Hs].
  destruct (m1 w1) as [[[]|e1] w1']; cbn in Hr, Hs; [|discriminate].
  now apply Hk.
Qed.

Lemma all_losses_hook tr idx call lin lout r :
  all_losses (tr ++ [EvHook idx call lin lout r]) = all_losses tr.
Proof. unfold all_losses. rewrite omap_app. cbn. apply app_nil_r. Qed.

Lemma all_losses_log tr key x :
  all_losses (tr ++ [EvLogSet key x]) = all_losses tr.
Proof. unfold all_losses. rewrite omap_app. cbn. apply app_nil_r. Qed.

Lemma sim_fire_from call callbacks :
  Forall cb_observer callbacks ->
  forall idx w1 w2, sim w1 w2 ->
    fst (fire_from idx call callbacks w1) = Ok tt /\
    sim (snd (fire_from idx call callbacks w1)) w2.
Proof.
  induction 1 as [|cb rest Hcb _ IH]; intros idx w1 w2 H; [now split|].
  cbn [fire_from]. unfold bind, invoke.
  destruct (Hcb call (w_logs w1, w_store w1, w_ext w1)) as [Hr Hst].
  destruct (dispatch cb call (w_logs w1, w_store w1, w_ext w1))
    as [r [[l st] ext]]; cbn in Hr, Hst; subst r st.
  apply IH. destruct H as [Hs Hl]. split; cbn; [exact Hs|].
  now rewrite all_losses_hook.
Qed.

Lemma sim_fire call callbacks {A} (k1 m2 : M A) :
  Forall cb_observer callbacks ->
  simulates k1 m2 ->
  simulates (bind (fire call callbacks) (fun _ => k1))
            (bind (fire call []) (fun _ => m2)).
Proof.
  intros Hobs Hk. apply sim_skip_l; [|exact Hk].
  intros w1 w2 H. now apply sim_fire_from.
Qed.

Lemma sim_fire_last call callbacks :
  Forall cb_observer callbacks ->
  simulates (fire call callbacks) (fire call []).
Proof.
  intros Hobs w1 w2 H.
  destruct (sim_fire_from call callbacks Hobs O w1 w2 H) as [Hr Hs].
  split; [exact Hr|exact Hs].
Qed.

Lemma sim_log_set key x w1 w2 :
  sim w1 w2 ->
  fst (log_set key x w1) = Ok tt /\ sim (snd (log_set key x w1)) w2.
Proof.
  intros [Hs Hl]. split; [reflexivity|]. split; cbn; [exact Hs|].
  now rewrite all_losses_log.
Qed.

Lemma sim_emit e : is_hook e = false -> simulates (emit e) (emit e).
Proof.
  intros _ w1 w2 [Hs Hl]. split; [reflexivity|]. split; cbn; [exact Hs|].
  unfold all_losses. rewrite !omap_app. now f_equal.
Qed.

Lemma sim_update_store f : simulates (update_store f) (update_store f).
Proof.
  intros w1 w2 [Hs Hl]. split; [reflexivity|]. split; cbn; [|exact Hl].
  now rewrite Hs.
Qed.

Lemma sim_train_step v x : simulates (train_step v x) (train_step v x).
Proof.
  intros w1 w2 [Hs Hl]. unfold train_step. rewrite Hs.
  destruct (forward_loss v x (w_store w2)) as [ls st1].
  split; [reflexivity|]. split; cbn; [reflexivity|exact Hl].
Qed.

Lemma sim_valid_step v x : simulates (valid_step v x) (valid_step v x).
Proof.
  intros w1 w2 [Hs Hl]. unfold valid_step. rewrite Hs.
  destruct (forward (w_store w2) x) as [[[[x' z] mu] logvar] st1].
  destruct (loss_fnc v x' x mu logvar) as [lr lk].
  split; [reflexivity|]. split; [reflexivity|exact Hl].
Qed.

Lemma skips_log_set key x : skips (log_set key x).
Proof. intros w1 w2. apply sim_log_set. Qed.

Lemma skips_bind m k : skips m -> skips k -> skips (bind m (fun _ => k)).
Proof.
  intros Hm Hk w1 w2 H. unfold bind. destruct (Hm w1 w2 H) as [Hr Hs].
  destruct (m w1) as [[[]|e] w1']; cbn in Hr, Hs; [|discriminate].
  now apply Hk.
Qed.

Lemma skips_when b m : skips m -> skips (when b m).
Proof. intros Hm. destruct b; [exact Hm|]. intros w1 w2 H. now split. Qed.

Lemma sim_when_logs {A} b m m' (k1 k2 : M A) :
  skips m -> simulates k1 k2 ->
  simulates (bind (when b m) (fun _ => k1)) (bind (when false m') (fun _ => k2)).
Proof.
  intros Hm Hk. apply (sim_skip_l (when b m) k1); [|exact Hk].
  now apply skips_when.
Qed.

Section Simulation.
Variable v : VAE.
Variable callbacks : list Callback.
Hypothesis observers : Forall cb_observer callbacks.

Lemma sim_train_batch train_loader epoch train_loss idx token :
  simulates (train_batch v train_loader epoch callbacks train_loss idx token)
            (train_batch v train_loader epoch [] train_loss idx token).
Proof.
  unfold train_batch. apply sim_fire; [exact observers|].
  apply sim_bind; [apply sim_train_step|intros [[lr lk] l]].
  apply sim_bind; [now apply sim_emit|intros _].
  apply sim_when_logs.
  - repeat apply skips_bind; apply skips_log_set.
  - apply sim_fire; [exact observers|apply sim_ret].
Qed.

Lemma sim_train_loop train_loader epoch todo :
  forall next train_loss batch_idx,
  simulates
    (train_loop v train_loader epoch callbacks todo next train_loss batch_idx)
    (train_loop v train_loader epoch [] todo next train_loss batch_idx).
Proof.
  induction todo as [|token todo IH]; intros; cbn [train_loop];
    [apply sim_ret|].
  apply sim_bind; [apply sim_train_batch|intros; apply IH].
Qed.

Lemma sim__train train_loader epoch :
  simulates (_train v train_loader epoch callbacks)
            (_train v train_loader epoch []).
Proof.
  unfold _train.
  apply sim_bind; [now apply sim_emit|intros _].
  apply sim_bind; [apply sim_update_store|intros _].
  apply sim_bind; [apply sim_train_loop|intros [tl [b|]]].
  - intros w1 w2 H.
    destruct (skips_when (truthy callbacks)
                (log_set "train_loss_average" (VFloat (tl / IZR (b + 1))))
                (skips_log_set _ _) w1 w2 H) as [Hr Hs].
    split; [exact Hr|exact Hs].
  - apply sim_raise.
Qed.

Lemma sim_valid_loop epoch todo :
  forall next valid_loss batch_idx,
  simulates (valid_loop v epoch callbacks todo next valid_loss batch_idx)
            (valid_loop v epoch [] todo next valid_loss batch_idx).
Proof.
  induction todo as [|token todo IH]; intros; cbn [valid_loop];
    [apply sim_ret|].
  apply sim_bind; [|intros; apply IH].
  unfold valid_batch.
  apply sim_bind; [apply sim_valid_step|intros [l mu]].
  apply sim_bind; [now apply sim_emit|intros _].
  apply sim_fire; [exact observers|apply sim_ret].
Qed.

Lemma sim__validate valid_loader epoch :
  simulates (_validate v valid_loader epoch callbacks)
            (_validate v valid_loader epoch []).
Proof.
  unfold _validate.
  apply sim_bind; [now apply sim_emit|intros _].
  apply sim_bind; [apply sim_update_store|intros _].
  apply sim_fire; [exact observers|].
  apply sim_bind; [apply sim_valid_loop|intros [vl [b|]]].
  - apply sim_when_logs; [apply skips_log_set|].
    now apply sim_fire_last.
  - apply sim_raise.
Qed.

Lemma sim__load_checkpoint path :
  simulates (_load_checkpoint v path) (_load_checkpoint v path).
Proof.
  assert (Hget : forall cp key, simulates (getitem cp key) (getitem cp key)).
  { intros cp key. unfold getitem.
    destruct (cp !! key); [apply sim_ret|apply sim_raise]. }
  assert (Hmod : forall set x,
            simulates (load_module_state set x) (load_module_state set x)).
  { intros set []; cbn; try apply sim_raise. apply sim_update_store. }
  unfold _load_checkpoint.
  apply sim_bind.
  { destruct (torch_load path); [apply sim_ret|apply sim_raise]. }
  intros cp.
  apply sim_bind; [apply Hget|intros enc].
  apply sim_bind; [apply Hmod|intros _].
  apply sim_bind; [apply Hget|intros dec].
  apply sim_bind; [apply Hmod|intros _].
  apply sim_bind; [apply Hget|intros opt].
  apply sim_bind; [|intros _; apply Hget].
  destruct opt; cbn; try apply sim_raise. apply sim_update_store.
Qed.

Lemma sim_for_each {X} (xs : list X) (body1 body2 : X -> M unit) :
  (forall x, simulates (body1 x) (body2 x)) ->
  simulates (for_each xs body1) (for_each xs body2).
Proof.
  intros Hb. induction xs as [|x xs IH]; cbn; [apply sim_ret|].
  apply sim_bind; auto.
Qed.

Lemma sim_train train_loader valid_loader epochs checkpoint :
  simulates (train v train_loader valid_loader epochs checkpoint callbacks)
            (train v train_loader valid_loader epochs checkpoint []).
Proof.
  unfold train.
  apply sim_bind.
  { intros w1 w2 [Hs Hl]. split; [reflexivity|]. now split. }
  intros _. apply sim_when_logs.
  { repeat apply skips_bind; try apply skips_log_set.
    apply skips_when, skips_log_set. }
  apply sim_bind.
  { destruct (checkpoint_given checkpoint); [|apply sim_ret].
    apply sim_bind; [apply sim__load_checkpoint|].
    intros []; try apply sim_raise. apply sim_ret. }
  intros start. apply sim_fire; [exact observers|].
  apply sim_bind; [|intros _; now apply sim_fire_last].
  apply sim_for_each. intros epoch. unfold one_epoch.
  apply sim_fire; [exact observers|].
  apply sim_bind; [apply sim__train|intros _].
  apply sim_bind; [apply sim__validate|intros _; now apply sim_fire_last].
Qed.

End Simulation.

(** C9. Without callbacks [logs] is created empty and stays empty: the
    controller writes no entry at all during the run (and no hook runs), however
    the run ends. The losses computed, the final weights, optimizer and
    scaler state, and the outcome are those of the same run with callbacks
    attached that only observe. *)
Theorem no_callbacks_empty_logs v train_loader valid_loader epochs checkpoint w :
  let run0 := train v train_loader valid_loader epochs checkpoint [] w in
  (w_logs (snd run0) = ∅ /\
   all_log_writes (w_trace (snd run0)) = all_log_writes (w_trace w) /\
   omap invoked (w_trace (snd run0)) = omap invoked (w_trace w)) /\
  (forall callbacks,
     Forall cb_observer callbacks ->
     let run := train v train_loader valid_loader epochs checkpoint callbacks w in
     fst run = fst run0 /\
     w_store (snd run) = w_store (snd run0) /\
     all_losses (w_trace (snd run)) = all_losses (w_trace (snd run0))).
Proof.
  intros run0. split.
  - subst run0.
    apply (preserves_train
             (fun w' => w_logs w' = ∅ /\
                        all_log_writes (w_trace w') = all_log_writes (w_trace w) /\
                        omap invoked (w_trace w') = omap invoked (w_trace w))
             [])
      with (I0 := fun w0 => w0 = w).
    + intros st w0 H. exact H.
    + intros w0 epoch (Hl & Ha & Hi).
      split; (split; [exact Hl|]); cbn; unfold all_log_writes;
        rewrite !omap_app; cbn; rewrite !app_nil_r; now split.
    + intros w0 ph epoch i l (Hl & Ha & Hi).
      split; [exact Hl|]. cbn. unfold all_log_writes.
      rewrite !omap_app. cbn. rewrite !app_nil_r. now split.
    + discriminate.
    + intros call w0 H. exact H.
    + intros w0 ->. cbn. auto.
    + reflexivity.
  - intros callbacks Hobs run.
    destruct (sim_train v callbacks Hobs train_loader valid_loader epochs
                checkpoint w w) as [Hr [Hs Hl]].
    { split; reflexivity. }
    auto.
Qed.

(** *** Where an exception can come from *)

Lemma hf_ret {A} (a : A) : hook_fault (ret a).
Proof. intros w e w' H. discriminate. Qed.

Lemma hf_modify f : hook_fault (modify f).
Proof. intros w e w' H. discriminate. Qed.

Lemma hf_when b m : hook_fault m -> hook_fault (when b m).
Proof. destruct b; [auto|intros _; apply hf_ret]. Qed.

Lemma hf_bind_post {A B} (P : A -> Prop) (m : M A) (k : A -> M B) :
  (forall w a w', m w = (Ok a, w') -> P a) ->
  hook_fault m -> (forall a, P a -> hook_fault (k a)) ->
  hook_fault (bind m k).
Proof.
  intros HP Hm Hk w e w' H. unfold bind in H.
  destruct (m w) as [[a|e1] w1] eqn:E.
  - eapply Hk; [eapply HP, E|exact H].
  - injection H as <- <-. eapply Hm, E.
Qed.

Lemma hf_bind {A B} (m : M A) (k : A -> M B) :
  hook_fault m -> (forall a, hook_fault (k a)) -> hook_fault (bind m k).
Proof.
  intros Hm Hk. apply (hf_bind_post (fun _ => True)); auto.
Qed.

Lemma hf_fire_from call : forall callbacks idx,
  hook_fault (fire_from idx call callbacks).
Proof.
  induction callbacks as [|cb rest IH]; intros idx; [apply hf_ret|].
  cbn [fire_from]. apply hf_bind; [|intros _; apply IH].
  intros w e w' H. unfold invoke in H.
  destruct (dispatch cb call (w_logs w, w_store w, w_ext w))
    as [r [[l st] ext]].
  injection H as -> <-. cbn. exists idx, call, (w_logs w), l. apply last_snoc.
Qed.

Lemma hf_fire call callbacks : hook_fault (fire call callbacks).
Proof. apply hf_fire_from. Qed.

Lemma hf_train_batch v train_loader epoch callbacks train_loss idx token :
  hook_fault (train_batch v train_loader epoch callbacks train_loss idx token).
Proof.
  unfold train_batch. apply hf_bind; [apply hf_fire|intros _].
  apply hf_bind.
  { intros w e w' H. unfold train_step in H.
    destruct (forward_loss v (data token) (w_store w)). discriminate. }
  intros [[lr lk] l]. apply hf_bind; [apply hf_modify|intros _].
  apply hf_bind.
  - apply hf_when. repeat (apply hf_bind; [apply hf_modify|intros _]).
    apply hf_modify.
  - intros _. apply hf_bind; [apply hf_fire|intros _; apply hf_ret].
Qed.

Lemma hf_train_loop v train_loader epoch callbacks todo :
  forall next train_loss batch_idx,
  hook_fault (train_loop v train_loader epoch callbacks todo next train_loss
                batch_idx).
Proof.
  induction todo as [|token todo IH]; intros; cbn [train_loop]; [apply hf_ret|].
  apply hf_bind; [apply hf_train_batch|intros; apply IH].
Qed.

Lemma train_loop_idx v train_loader epoch callbacks todo :
  forall next train_loss batch_idx w r w',
  train_loop v train_loader epoch callbacks todo next train_loss batch_idx w
    = (Ok r, w') ->
  snd r = final_idx todo next batch_idx.
Proof.
  induction todo as [|token todo IH]; intros next tl bi w r w' H.
  - injection H as <- _. reflexivity.
  - cbn [train_loop] in H. unfold bind in H.
    destruct (train_batch v train_loader epoch callbacks tl next token w)
      as [[tl'|e] w1]; [|discriminate].
    rewrite (IH _ _ _ _ _ _ H). apply final_idx_cons.
Qed.

Lemma hf__train v train_loader epoch callbacks :
  train_loader <> [] -> hook_fault (_train v train_loader epoch callbacks).
Proof.
  intros Hne. unfold _train.
  apply hf_bind; [apply hf_modify|intros _].
  apply hf_bind; [apply hf_modify|intros _].
  apply (hf_bind_post (fun r => snd r <> None)); [|apply hf_train_loop|].
  - intros w r w' H. rewrite (train_loop_idx _ _ _ _ _ _ _ _ _ _ _ H).
    destruct train_loader; [contradiction|discriminate].
  - intros [tl [b|]] Hb; [|contradiction].
    apply hf_when, hf_modify.
Qed.

Lemma hf_valid_batch v epoch callbacks valid_loss idx token :
  hook_fault (valid_batch v epoch callbacks valid_loss idx token).
Proof.
  unfold valid_batch. apply hf_bind.
  { intros w e w' H. unfold valid_step in H.
    destruct (forward (w_store w) (data token)) as [[[[x' z] mu] logvar] st1].
    destruct (loss_fnc v x' (data token) mu logvar). discriminate. }
  intros [l mu]. apply hf_bind; [apply hf_modify|intros _].
  apply hf_bind; [apply hf_fire|intros _; apply hf_ret].
Qed.

Lemma hf_valid_loop v epoch callbacks todo :
  forall next valid_loss batch_idx,
  hook_fault (valid_loop v epoch callbacks todo next valid_loss batch_idx).
Proof.
  induction todo as [|token todo IH]; intros; cbn [valid_loop]; [apply hf_ret|].
  apply hf_bind; [apply hf_valid_batch|intros; apply IH].
Qed.

Lemma valid_loop_idx v epoch callbacks todo :
  forall next valid_loss batch_idx w r w',
  valid_loop v epoch callbacks todo next valid_loss batch_idx w = (Ok r, w') ->
  snd r = final_idx todo next batch_idx.
Proof.
  induction todo as [|token todo IH]; intros next vl bi w r w' H.
  - injection H as <- _. reflexivity.
  - cbn [valid_loop] in H. unfold bind in H.
    destruct (valid_batch v epoch callbacks vl next token w)
      as [[vl'|e] w1]; [|discriminate].
    rewrite (IH _ _ _ _ _ _ H). apply final_idx_cons.
Qed.

Lemma hf__validate v valid_loader epoch callbacks :
  valid_loader <> [] -> hook_fault (_validate v valid_loader epoch callbacks).
Proof.
  intros Hne. unfold _validate.
  apply hf_bind; [apply hf_modify|intros _].
  apply hf_bind; [apply hf_modify|intros _].
  apply hf_bind; [apply hf_fire|intros _].
  apply (hf_bind_post (fun r => snd r <> None)); [|apply hf_valid_loop|].
  - intros w r w' H. rewrite (valid_loop_idx _ _ _ _ _ _ _ _ _ _ H).
    destruct valid_loader; [contradiction|discriminate].
  - intros [vl [b|]] Hb; [|contradiction].
    apply hf_bind; [apply hf_when, hf_modify|intros _; apply hf_fire].
Qed.

Lemma _train_empty v epoch callbacks w :
  exists w',
    _train v [] epoch callbacks w
      = (Raise (UnboundLocalError "batch_idx"), w') /\
    all_log_writes (w_trace w') = all_log_writes (w_trace w).
Proof.
  eexists. split; [reflexivity|]. cbn. unfold all_log_writes.
  rewrite omap_app. cbn. apply app_nil_r.
Qed.

Lemma _validate_empty v epoch callbacks w :
  Forall cb_total callbacks ->
  exists w',
    _validate v [] epoch callbacks w
      = (Raise (UnboundLocalError "batch_idx"), w') /\
    all_log_writes (w_trace w') = all_log_writes (w_trace w).
Proof.
  intros Ht. unfold _validate.
  unfold emit, update_store, modify, bind at 1 2.
  run_fire Ht w1 E1 T1.
  exists w1. split; [reflexivity|].
  rewrite (all_log_writes_ctl (w_trace w1)), T1, <- all_log_writes_ctl.
  cbn. unfold all_log_writes. rewrite omap_app. cbn. apply app_nil_r.
Qed.

Lemma one_epoch_empty v train_loader valid_loader callbacks epoch w :
  Forall cb_total callbacks ->
  train_loader = [] \/ valid_loader = [] ->
  exists w',
    one_epoch v train_loader valid_loader callbacks epoch w
      = (Raise (UnboundLocalError "batch_idx"), w').
Proof.
  intros Ht Hempty. unfold one_epoch.
  run_fire Ht w1 E1 T1.
  destruct train_loader as [|b0 rest].
  - destruct (_train_empty v epoch callbacks w1) as (w2 & E2 & _).
    rewrite (bind_raise _ _ _ _ _ E2). eauto.
  - destruct Hempty as [ ? | -> ]; [discriminate|].
    destruct (_train_total v (b0 :: rest) epoch callbacks w1 Ht)
      as (ls & w2 & _ & E2 & _); [discriminate|].
    rewrite (bind_ok _ _ _ _ _ E2).
    destruct (_validate_empty v epoch callbacks w2 Ht) as (w3 & E3 & _).
    rewrite (bind_raise _ _ _ _ _ E3). eauto.
Qed.

(** C10. Over a batch source that yields nothing, the pass leaves
    [batch_idx] unbound and raises where it computes the average, logging
    none, and the run raises with it. Over sources that yield at least one
    batch each this cannot happen: a run whose callbacks return normally
    returns normally, and whatever a pass raises was raised by a hook. *)
Theorem batch_idx_bound_iff_batches v :
  (forall epoch callbacks w, exists w',
     _train v [] epoch callbacks w
       = (Raise (UnboundLocalError "batch_idx"), w') /\
     all_log_writes (w_trace w') = all_log_writes (w_trace w)) /\
  (forall epoch callbacks w,
     Forall cb_total callbacks ->
     exists w',
       _validate v [] epoch callbacks w
         = (Raise (UnboundLocalError "batch_idx"), w') /\
       all_log_writes (w_trace w') = all_log_writes (w_trace w)) /\
  (forall train_loader valid_loader epochs callbacks w,
     Forall cb_total callbacks ->
     1 <= epochs ->
     train_loader = [] \/ valid_loader = [] ->
     fst (train v train_loader valid_loader epochs None callbacks w)
       = Raise (UnboundLocalError "batch_idx")) /\
  (forall train_loader valid_loader epochs callbacks w,
     Forall cb_total callbacks ->
     train_loader <> [] -> valid_loader <> [] ->
     fst (train v train_loader valid_loader epochs None callbacks w) = Ok tt) /\
  (forall train_loader valid_loader epoch callbacks w e w',
     train_loader <> [] -> valid_loader <> [] ->
     _train v train_loader epoch callbacks w = (Raise e, w') \/
     _validate v valid_loader epoch callbacks w = (Raise e, w') ->
     exists idx call lin lout,
       last (w_trace w') = Some (EvHook idx call lin lout (Raise e))).
Proof.
  split; [intros; apply _train_empty|].
  split; [intros; now apply _validate_empty|].
  split; [|split].
  - intros train_loader valid_loader epochs callbacks w Ht He Hempty.
    rewrite (train_unfold v train_loader valid_loader epochs None callbacks w 1
               (w_store w)) by now constructor.
    run_fire Ht w0 E0 T0.
    rewrite range_cons by lia. cbn [for_each].
    destruct (one_epoch_empty v train_loader valid_loader callbacks 1 w0 Ht
                Hempty) as (w1 & E1).
    now rewrite (bind_raise _ _ _ _ _ (bind_raise _ _ _ _ _ E1)).
  - intros train_loader valid_loader epochs callbacks w Ht Ht1 Ht2.
    destruct (train_total v train_loader valid_loader epochs None callbacks
                w 1 (w_store w) Ht Ht1 Ht2) as (per & w' & _ & _ & E & _).
    { now constructor. }
    now rewrite E.
  - intros train_loader valid_loader epoch callbacks w e w' Ht1 Ht2 [H|H].
    + exact (hf__train v train_loader epoch callbacks Ht1 w e w' H).
    + exact (hf__validate v valid_loader epoch callbacks Ht2 w e w' H).
Qed.

(** *** Evaluating a loader with [compute_losses] *)

Lemma losses_batch_valid_step v token w1 w2 :
  w_store w1 = w_store w2 ->
  exists bce kld mu st1,
    st1 = set_rng (rng st1) (w_store w1) /\
    losses_batch v token w1 = (Ok (bce, kld, index token), set_store st1 w1) /\
    (loss_fnc v = Loss.vae_logit_loss F_binary_cross_entropy_with_logits ->
     valid_step v (data token) w2 = (Ok ((bce + kld)%R, mu), set_store st1 w2)).
Proof.
  intros Hs. unfold losses_batch, valid_step. rewrite <- Hs.
  pose proof (forward_store (w_store w1) (data token)) as Hf.
  destruct (forward (w_store w1) (data token)) as [[[[x' z] mu] logvar] st1].
  cbn in Hf |- *. eexists _, _, mu, st1. split; [exact Hf|].
  split; [reflexivity|]. intros ->. reflexivity.
Qed.

Lemma set_rng_twice r r' (st : store) : set_rng r (set_rng r' st) = set_rng r st.
Proof. reflexivity. Qed.

Lemma set_rng_same (st : store) : st = set_rng (rng st) st.
Proof. now destruct st. Qed.

Lemma losses_loop_total v : forall todo bces klds idxs w,
  exists bs ks w',
    losses_loop v todo bces klds idxs w
      = (Ok (bces ++ bs, klds ++ ks, idxs ++ map index todo), w') /\
    length bs = length todo /\ length ks = length todo /\
    w_store w' = set_rng (rng (w_store w')) (w_store w) /\
    w_logs w' = w_logs w /\ w_ext w' = w_ext w /\ w_trace w' = w_trace w.
Proof.
  induction todo as [|token todo IH]; intros bces klds idxs w.
  - exists [], [], w. cbn. rewrite !app_nil_r.
    repeat split; try reflexivity. apply set_rng_same.
  - cbn [losses_loop].
    destruct (losses_batch_valid_step v token w w eq_refl)
      as (bce & kld & mu & st1 & Hst1 & E & _).
    rewrite (bind_ok _ _ _ _ _ E).
    destruct (IH (bces ++ [bce]) (klds ++ [kld]) (idxs ++ [index token])
                (set_store st1 w))
      as (bs & ks & w' & E' & Hb & Hk & Hst & Hl & Hx & Ht).
    exists (bce :: bs), (kld :: ks), w'.
    rewrite E', <- !List.app_assoc. cbn [app map length].
    split; [reflexivity|]. split; [congruence|]. split; [congruence|].
    split; [|split; [exact Hl|split; [exact Hx|exact Ht]]].
    cbn [w_store set_store] in Hst. rewrite Hst1, set_rng_twice in Hst.
    exact Hst.
Qed.

Lemma valid_batch_plain v epoch valid_loss idx token w l mu st1 :
  valid_step v (data token) w = (Ok (l, mu), set_store st1 w) ->
  valid_batch v epoch [] valid_loss idx token w
    = (Ok (valid_loss + l)%R,
       add_event (EvLoss Validation epoch idx l) (set_store st1 w)).
Proof.
  intros E. unfold valid_batch. rewrite (bind_ok _ _ _ _ _ E). reflexivity.
Qed.


Lemma _load_checkpoint_keeps v path w :
  rng (w_store (snd (_load_checkpoint v path w))) = rng (w_store w) /\
  training (w_store (snd (_load_checkpoint v path w))) = training (w_store w) /\
  grad (w_store (snd (_load_checkpoint v path w))) = grad (w_store w) /\
  gscaler (w_store (snd (_load_checkpoint v path w))) = gscaler (w_store w) /\
  w_logs (snd (_load_checkpoint v path w)) = w_logs w /\
  w_ext (snd (_load_checkpoint v path w)) = w_ext w /\
  w_trace (snd (_load_checkpoint v path w)) = w_trace w.
Proof.
  unfold _load_checkpoint, getitem, bind, ret, raise.
  destruct (torch_load path) as [cp|]; cbn -[lookup];
    [|repeat split; reflexivity].
  destruct (cp !! "encoder_state_dict"%string) as [[?|?|?]|]; cbn -[lookup];
    try (repeat split; reflexivity).
  destruct (cp !! "decoder_state_dict"%string) as [[?|?|?]|]; cbn -[lookup];
    try (repeat split; reflexivity).
  destruct (cp !! "optimizer_state_dict"%string) as [[?|?|?]|]; cbn -[lookup];
    try (repeat split; reflexivity).
  destruct (cp !! "epoch"%string) as [?|]; cbn -[lookup];
    repeat split; reflexivity.
Qed.

(** X1. From a complete checkpoint, [compute_losses] returns three lists
    with one entry per batch of the loader, in the loader's order, the third
    being the batches' [index] fields; an empty loader gives three empty lists.
    Afterwards the weights and the optimizer state are the checkpoint's and the
    model is in evaluation mode; only the random generator has moved besides.
    Nothing is logged and no hook runs. *)
Theorem compute_losses_lists v data_loader path cp enc dec opt n w :
  torch_load path = Some cp ->
  well_formed_checkpoint cp enc dec opt n ->
  exists bce_losses kld_losses w',
    compute_losses v data_loader path w
      = (Ok (bce_losses, kld_losses, map index data_loader), w') /\
    length bce_losses = length data_loader /\
    length kld_losses = length data_loader /\
    w_store w' =
      set_rng (rng (w_store w'))
        (set_training false (restore enc dec opt (w_store w))) /\
    w_logs w' = w_logs w /\ w_ext w' = w_ext w /\ w_trace w' = w_trace w.
Proof.
  intros Hl Hwf. unfold compute_losses.
  rewrite (bind_ok _ _ _ _ _ (_load_checkpoint_ok v path cp enc dec opt n w Hl Hwf)).
  unfold update_store, modify, bind at 1.
  match goal with
  | |- context [losses_loop _ _ _ _ _ ?w1] =>
      destruct (losses_loop_total v data_loader [] [] [] w1)
        as (bs & ks & w' & E & Hb & Hk & Hst & Hlg & Hx & Ht)
  end.
  exists bs, ks, w'. split; [exact E|]. repeat split; assumption.
Qed.

Lemma _validate_plain v valid_loader epoch w :
  snd (_validate v valid_loader epoch [] w) =
  snd (valid_loop v epoch [] valid_loader 0 0%R None
         (set_store (set_training false (w_store w))
            (add_event (EvValidPass epoch) w))).
Proof.
  unfold _validate, emit, update_store, modify, fire. cbn [fire_from].
  unfold bind, ret. cbn [w_store add_event].
  match goal with
  | |- context [valid_loop ?a ?b ?c ?d ?e ?f ?g ?h] =>
      destruct (valid_loop a b c d e f g h) as [[[vl [b0|]]|e0] w2]
  end; reflexivity.
Qed.



(** *** What a run does before its first epoch *)

Lemma train_prefix v train_loader valid_loader epochs checkpoint callbacks w :
  train v train_loader valid_loader epochs checkpoint callbacks w =
  bind
    (match checkpoint_given checkpoint with
     | Some path =>
         e <- _load_checkpoint v path ;;
         match e with
         | CpInt n => ret (1 + n)
         | _ => raise (TypeError "unsupported operand type(s) for +=")
         end
     | None => ret 1
     end)
    (run_from v train_loader valid_loader epochs callbacks)
    (started v callbacks (w_store w) w).
Proof.
  unfold train, started, init_skel, run_from.
  destruct (checkpoint_given checkpoint) as [path|];
    destruct (truthy callbacks), dist_is_initialized;
    unfold when, log_set, modify, ret, bind, add_event, set_logs;
    cbn -[fire for_each _load_checkpoint];
    rewrite <- ?List.app_assoc, ?app_nil_r; reflexivity.
Qed.

Lemma all_losses_init v logging : all_losses (init_skel v logging) = [].
Proof. unfold init_skel. destruct logging, dist_is_initialized; reflexivity. Qed.

Lemma started_reads v callbacks st w :
  w_store (started v callbacks st w) = st /\
  omap invoked (w_trace (started v callbacks st w)) = omap invoked (w_trace w) /\
  epochs_trained (w_trace (started v callbacks st w))
    = epochs_trained (w_trace w) /\
  all_losses (w_trace (started v callbacks st w)) = all_losses (w_trace w).
Proof.
  unfold started. cbn [w_store w_trace]. unfold epochs_trained, all_losses.
  rewrite !omap_app.
  fold (epochs_trained (init_skel v (truthy callbacks)))
       (all_losses (init_skel v (truthy callbacks))).
  rewrite invoked_init, epochs_trained_init, all_losses_init, !app_nil_r. auto.
Qed.

Lemma checkpoint_given_path path :
  path <> ""%string -> checkpoint_given (Some path) = Some path.
Proof.
  intros H. unfold checkpoint_given. destruct (String.eqb_spec path ""); congruence.
Qed.

(** X4. Asked to resume from a checkpoint file that does not exist, [train]
    raises [FileNotFoundError] before any hook is invoked and before any
    epoch runs, and the model and optimizer are as they were. *)
Theorem train_missing_checkpoint_file v train_loader valid_loader epochs path
    callbacks w :
  path <> ""%string ->
  torch_load path = None ->
  exists w',
    train v train_loader valid_loader epochs (Some path) callbacks w
      = (Raise (FileNotFoundError path), w') /\
    w_store w' = w_store w /\
    omap invoked (w_trace w') = omap invoked (w_trace w) /\
    epochs_trained (w_trace w') = epochs_trained (w_trace w) /\
    all_losses (w_trace w') = all_losses (w_trace w).
Proof.
  intros Hpath Hl. exists (started v callbacks (w_store w) w).
  split; [|apply started_reads].
  rewrite train_prefix, (checkpoint_given_path path Hpath).
  unfold _load_checkpoint, bind, raise. now rewrite Hl.
Qed.

(** X5. A checkpoint record that has the three states but lost its [epoch]
    field is loaded before the missing field is noticed: the load raises
    [KeyError] with the stored weights and optimizer state already assigned
    into the live model and optimizer, and [train] raises leaving them so. *)
Theorem torn_checkpoint_is_half_loaded v train_loader valid_loader epochs path
    cp enc dec opt callbacks w :
  path <> ""%string ->
  torch_load path = Some cp ->
  cp !! "encoder_state_dict"%string = Some (CpStateDict enc) ->
  cp !! "decoder_state_dict"%string = Some (CpStateDict dec) ->
  cp !! "optimizer_state_dict"%string = Some (CpOptimizer opt) ->
  cp !! "epoch"%string = None ->
  _load_checkpoint v path w
    = (Raise (KeyError "epoch"),
       set_store (restore enc dec opt (w_store w)) w) /\
  exists w',
    train v train_loader valid_loader epochs (Some path) callbacks w
      = (Raise (KeyError "epoch"), w') /\
    w_store w' = restore enc dec opt (w_store w) /\
    omap invoked (w_trace w') = omap invoked (w_trace w).
Proof.
  intros Hpath Hl He Hd Ho Hn.
  assert (Hload : forall w0,
    _load_checkpoint v path w0
      = (Raise (KeyError "epoch"),
         set_store (restore enc dec opt (w_store w0)) w0)).
  { intros w0. unfold _load_checkpoint, getitem, bind, ret. rewrite Hl.
    cbn -[lookup]. rewrite He. cbn -[lookup]. rewrite Hd. cbn -[lookup].
    rewrite Ho. cbn -[lookup]. rewrite Hn. reflexivity. }
  split; [apply Hload|].
  eexists. rewrite train_prefix, (checkpoint_given_path path Hpath).
  rewrite (bind_raise _ _ _ _ _ (bind_raise _ _ _ _ _ (Hload _))).
  split; [reflexivity|].
  destruct (started_reads v callbacks (w_store w) w) as (Hs & Hi & _).
  cbn [w_store set_store w_trace]. rewrite Hs. split; [reflexivity|exact Hi].
Qed.

(** *** Runs with nothing left to do *)

Lemma omap_of_map {X Y} (f : X -> option Y) (d : list X) (l : list Y) :
  map f d = map Some l -> omap f d = l.
Proof.
  revert l. induction d as [|x d IH]; intros [|y l] H; try discriminate.
  - reflexivity.
  - cbn in H |- *. injection H as Hx Hd. rewrite Hx. cbn. f_equal. now apply IH.
Qed.

Lemma map_Some_pair call (l : list nat) :
  map (fun i => Some (i, call)) l
    = map (@Some (nat * hook_call)) (map (fun i => (i, call)) l).
Proof. now rewrite List.map_map. Qed.

Lemma epochs_trained_delta tr tr' d :
  ctl tr' = ctl tr ++ d ->
  epochs_trained tr' = epochs_trained tr ++ epochs_trained d.
Proof. apply reading_delta. hook_none. Qed.

Lemma epochs_validated_delta tr tr' d :
  ctl tr' = ctl tr ++ d ->
  epochs_validated tr' = epochs_validated tr ++ epochs_validated d.
Proof. apply reading_delta. hook_none. Qed.

Lemma all_losses_delta tr tr' d :
  ctl tr' = ctl tr ++ d ->
  all_losses tr' = all_losses tr ++ all_losses d.
Proof. apply reading_delta. hook_none. Qed.

(** X6. When the first epoch to run lies beyond [epochs] (a run from
    scratch with [epochs <= 0], or a resumed run whose checkpoint was taken at
    epoch [epochs] or later), [train] trains and validates nothing, whatever
    the loaders hold: it invokes [on_train_begin] and then [on_train_end] on
    each callback, in list order, and returns. With callbacks that only observe,
    the model and optimizer are left as the checkpoint restored them. *)
Theorem train_nothing_left_to_run v train_loader valid_loader epochs checkpoint
    callbacks w start st :
  Forall cb_total callbacks ->
  resumes checkpoint (w_store w) start st ->
  epochs < start ->
  exists w',
    train v train_loader valid_loader epochs checkpoint callbacks w
      = (Ok tt, w') /\
    epochs_trained (w_trace w') = epochs_trained (w_trace w) /\
    epochs_validated (w_trace w') = epochs_validated (w_trace w) /\
    all_losses (w_trace w') = all_losses (w_trace w) /\
    omap invoked (w_trace w') =
      omap invoked (w_trace w)
      ++ map (fun i => (i, on_train_begin)) (seq 0 (length callbacks))
      ++ map (fun i => (i, on_train_end)) (seq 0 (length callbacks)) /\
    (Forall cb_observer callbacks -> w_store w' = st).
Proof.
  intros Ht Hr Hlt.
  assert (Hrun : forall cbs,
    train v train_loader valid_loader epochs checkpoint cbs w =
    (fire on_train_begin cbs ;; fire on_train_end cbs) (started v cbs st w)).
  { intros cbs.
    rewrite (train_unfold _ _ _ _ _ _ _ _ _ Hr), range_nil by lia.
    cbn [for_each]. unfold bind, ret.
    destruct (fire on_train_begin cbs (started v cbs st w)) as [[[]|e] w1];
      reflexivity. }
  rewrite (Hrun callbacks).
  destruct (fire_from_events on_train_begin callbacks 0
              (started v callbacks st w) Ht) as (d1 & w1 & E1 & T1 & D1).
  fold (fire on_train_begin callbacks) in E1.
  rewrite (bind_ok _ _ _ _ _ E1).
  destruct (fire_from_events on_train_end callbacks 0 w1 Ht)
    as (d2 & w2 & E2 & T2 & D2).
  fold (fire on_train_end callbacks) in E2. rewrite E2.
  exists w2. split; [reflexivity|].
  destruct (fire_total callbacks on_train_begin (started v callbacks st w) Ht)
    as (w1' & E1' & C1).
  destruct (fire_total callbacks on_train_end w1 Ht) as (w2' & E2' & C2).
  assert (w1' = w1) as -> by congruence.
  assert (w2' = w2) as -> by congruence.
  assert (Hctl : ctl (w_trace w2)
                 = ctl (w_trace w) ++ init_skel v (truthy callbacks)).
  { rewrite C2, C1. unfold started. cbn [w_trace].
    now rewrite ctl_app, ctl_init_skel. }
  split.
  { rewrite (epochs_trained_delta _ _ _ Hctl).
    now rewrite epochs_trained_init, app_nil_r. }
  split.
  { rewrite (epochs_validated_delta _ _ _ Hctl).
    now rewrite epochs_validated_init, app_nil_r. }
  split.
  { rewrite (all_losses_delta _ _ _ Hctl).
    now rewrite all_losses_init, app_nil_r. }
  split.
  { rewrite T2, T1, !omap_app.
    destruct (started_reads v callbacks st w) as (_ & Hi & _). rewrite Hi.
    rewrite map_Some_pair in D1, D2.
    rewrite (omap_of_map _ _ _ D1), (omap_of_map _ _ _ D2).
    now rewrite <- List.app_assoc. }
  intros Hobs.
  destruct (sim_train v callbacks Hobs train_loader valid_loader epochs
              checkpoint w w) as [_ [Hs _]]; [split; reflexivity|].
  rewrite (Hrun callbacks), (bind_ok _ _ _ _ _ E1), E2 in Hs.
  cbn [snd] in Hs. rewrite Hs, (Hrun []). reflexivity.
Qed.

(** *** What a validation pass leaves behind *)

Lemma valid_step_run v x w :
  exists l mu st1,
    st1 = set_rng (rng st1) (w_store w) /\
    valid_step v x w = (Ok (l, mu), set_store st1 w).
Proof.
  unfold valid_step. pose proof (forward_store (w_store w) x) as Hf.
  destruct (forward (w_store w) x) as [[[[x' z] mu] logvar] st1].
  destruct (loss_fnc v x' x mu logvar) as [lr lk]. cbn in Hf.
  eexists _, mu, st1. split; [exact Hf|reflexivity].
Qed.

Lemma valid_loop_plain v epoch : forall todo next valid_loss batch_idx w,
  exists r w',
    valid_loop v epoch [] todo next valid_loss batch_idx w = (Ok r, w') /\
    w_store w' = set_rng (rng (w_store w')) (w_store w).
Proof.
  induction todo as [|token todo IH]; intros next vl bi w.
  - exists (vl, bi), w. split; [reflexivity|apply set_rng_same].
  - cbn [valid_loop].
    destruct (valid_step_run v (data token) w) as (l & mu & st1 & Hst1 & E).
    rewrite (bind_ok _ _ _ _ _ (valid_batch_plain v epoch vl next token w l mu st1 E)).
    match goal with
    | |- context [valid_loop _ _ _ _ ?nx ?l' ?b ?w1] =>
        destruct (IH nx l' b w1) as (r & w' & E' & Hst)
    end.
    exists r, w'. split; [exact E'|].
    cbn [w_store add_event set_store] in Hst.
    rewrite Hst1, set_rng_twice in Hst. exact Hst.
Qed.

Lemma _validate_plain_store v valid_loader epoch w :
  w_store (snd (_validate v valid_loader epoch [] w))
    = set_rng (rng (w_store (snd (_validate v valid_loader epoch [] w))))
        (set_training false (w_store w)).
Proof.
  rewrite _validate_plain.
  match goal with
  | |- context [valid_loop ?a ?b ?c ?d ?e ?f ?g ?h] =>
      destruct (valid_loop_plain a b d e f g h) as (r & w' & E & Hst)
  end.
  rewrite E. exact Hst.
Qed.

(** X7. A validation pass changes no weight: with callbacks that only
    observe, [_validate] leaves the encoder and decoder weights, the
    optimizer state, the stored gradients and the gradient scaler as they were,
    and the model in evaluation mode, whether it returns or raises. *)
Theorem validation_leaves_weights v valid_loader epoch callbacks w :
  Forall cb_observer callbacks ->
  encoder_sd (w_store (snd (_validate v valid_loader epoch callbacks w)))
    = encoder_sd (w_store w) /\
  decoder_sd (w_store (snd (_validate v valid_loader epoch callbacks w)))
    = decoder_sd (w_store w) /\
  optimizer_sd (w_store (snd (_validate v valid_loader epoch callbacks w)))
    = optimizer_sd (w_store w) /\
  grad (w_store (snd (_validate v valid_loader epoch callbacks w)))
    = grad (w_store w) /\
  gscaler (w_store (snd (_validate v valid_loader epoch callbacks w)))
    = gscaler (w_store w) /\
  training (w_store (snd (_validate v valid_loader epoch callbacks w))) = false.
Proof.
  intros Hobs.
  destruct (sim__validate v callbacks Hobs valid_loader epoch w w)
    as [_ [Hs _]]; [split; reflexivity|].
  rewrite Hs, _validate_plain_store. repeat split; reflexivity.
Qed.

(** *** The mode a run leaves the model in *)

Lemma bind_ok_inv {A B} (m : M A) (k : A -> M B) w b w' :
  bind m k w = (Ok b, w') ->
  exists a w1, m w = (Ok a, w1) /\ k a w1 = (Ok b, w').
Proof.
  unfold bind. destruct (m w) as [[a|e] w1]; [eauto|discriminate].
Qed.

Lemma one_epoch_plain_eval v train_loader valid_loader epoch w w' :
  one_epoch v train_loader valid_loader [] epoch w = (Ok tt, w') ->
  training (w_store w') = false.
Proof.
  unfold one_epoch. intros H.
  apply bind_ok_inv in H. destruct H as ([] & w1 & _ & H).
  apply bind_ok_inv in H. destruct H as ([] & w2 & _ & H).
  apply bind_ok_inv in H. destruct H as ([] & w3 & Hv & H).
  injection H as <-.
  pose proof (_validate_plain_store v valid_loader epoch w2) as Hst.
  rewrite Hv in Hst. cbn [snd] in Hst. now rewrite Hst.
Qed.

Lemma epochs_plain_eval v train_loader valid_loader : forall es w w',
  es <> [] ->
  for_each es (one_epoch v train_loader valid_loader []) w = (Ok tt, w') ->
  training (w_store w') = false.
Proof.
  induction es as [|e es IH]; intros w w' Hne H; [contradiction|].
  cbn [for_each] in H. apply bind_ok_inv in H.
  destruct H as ([] & w1 & H1 & H).
  destruct es as [|e' es'].
  - injection H as <-. eapply one_epoch_plain_eval, H1.
  - eapply IH; [discriminate|exact H].
Qed.

(** X8. A run that returns normally after at least one epoch leaves the
    model in evaluation mode, the mode its last validation pass set: with
    callbacks that only observe, [training] is false when [train] returns. *)
Theorem train_leaves_eval_mode v train_loader valid_loader epochs checkpoint
    callbacks w start st w' :
  Forall cb_observer callbacks ->
  resumes checkpoint (w_store w) start st ->
  start <= epochs ->
  train v train_loader valid_loader epochs checkpoint callbacks w
    = (Ok tt, w') ->
  training (w_store w') = false.
Proof.
  intros Hobs Hr Hle E.
  destruct (sim_train v callbacks Hobs train_loader valid_loader epochs
              checkpoint w w) as [Hf [Hs _]]; [split; reflexivity|].
  rewrite E in Hf, Hs. cbn [fst snd] in Hf, Hs. rewrite Hs.
  destruct (train v train_loader valid_loader epochs checkpoint [] w)
    as [r w0] eqn:E0.
  cbn [fst snd] in Hf |- *. subst r.
  rewrite (train_unfold _ _ _ _ _ _ _ _ _ Hr) in E0.
  apply bind_ok_inv in E0. destruct E0 as ([] & w1 & _ & E0).
  apply bind_ok_inv in E0. destruct E0 as ([] & w2 & E1 & E0).
  injection E0 as <-.
  eapply epochs_plain_eval; [|exact E1].
  rewrite range_cons by lia. discriminate.
Qed.

(** *** The first and the last hook of a run *)

Lemma head_app_Some {X} (l l' : list X) x :
  head l = Some x -> head (l ++ l') = Some x.
Proof. destruct l; [discriminate|auto]. Qed.

Lemma fire_from_stable (P : list event -> Prop) call :
  trace_stable P ->
  forall rest idx, preserves (fun w => P (w_trace w)) (fire_from idx call rest).
Proof.
  intros HP. induction rest as [|cb rest IH]; intros idx w H; [exact H|].
  cbn [fire_from]. apply preserves_bind; [|intros _; apply IH|exact H].
  clear -HP. intros w H. unfold invoke.
  destruct (dispatch cb call (w_logs w, w_store w, w_ext w)) as [r [[l st] ext]].
  cbn. now apply HP.
Qed.

Lemma one_epoch_stable (P : list event -> Prop) v train_loader valid_loader
    callbacks epoch :
  trace_stable P ->
  preserves (fun w => P (w_trace w))
    (one_epoch v train_loader valid_loader callbacks epoch).
Proof.
  intros HP. apply preserves_one_epoch.
  - intros st w H. exact H.
  - intros w ep H. split; cbn; now apply HP.
  - intros w ph ep i l H. cbn. now apply HP.
  - intros _ key val w H. cbn. now apply HP.
  - intros call. now apply fire_from_stable.
Qed.

(** What [train] does after the first [on_train_begin] hook was invoked. *)
Lemma run_rest_stable (P : list event -> Prop) v train_loader valid_loader
    callbacks rest es :
  trace_stable P ->
  preserves (fun w => P (w_trace w))
    (fire_from 1 on_train_begin rest ;;
     for_each es (one_epoch v train_loader valid_loader callbacks) ;;
     fire on_train_end callbacks).
Proof.
  intros HP. apply preserves_bind; [now apply fire_from_stable|intros _].
  apply preserves_bind; [|intros _; now apply fire_from_stable].
  apply preserves_for_each. intros epoch. now apply one_epoch_stable.
Qed.

Lemma first_hook_stable x :
  trace_stable (fun tr => head (omap invoked tr) = Some x).
Proof. intros tr e H. rewrite omap_app. now apply head_app_Some. Qed.

Lemma prefix_stable (tr0 : list event) :
  trace_stable (fun tr => exists tail, tr = tr0 ++ tail).
Proof.
  intros tr e [tail ->]. exists (tail ++ [e]). now rewrite List.app_assoc.
Qed.

Lemma one_epoch_no_hooks v train_loader valid_loader epoch :
  preserves (fun w => omap invoked (w_trace w) = [])
    (one_epoch v train_loader valid_loader [] epoch).
Proof.
  apply preserves_one_epoch.
  - intros st w H. exact H.
  - intros w ep H. split; cbn; rewrite omap_app, H; reflexivity.
  - intros w ph ep i l H. cbn. rewrite omap_app, H. reflexivity.
  - discriminate.
  - intros call w H. exact H.
Qed.

Lemma fire_from_last call : forall rest idx cb w w',
  fire_from idx call (cb :: rest) w = (Ok tt, w') ->
  exists lin,
    last (w_trace w')
      = Some (EvHook (idx + length rest) call lin (w_logs w') (Ok tt)).
Proof.
  induction rest as [|cb2 rest IH]; intros idx cb w w' H.
  - cbn [fire_from] in H. unfold bind, invoke, ret in H.
    destruct (dispatch cb call (w_logs w, w_store w, w_ext w))
      as [[[]|e] [[l st] ext]]; [|discriminate].
    injection H as <-. exists (w_logs w). cbn [w_trace w_logs length].
    rewrite Nat.add_0_r. apply last_snoc.
  - change (fire_from idx call (cb :: cb2 :: rest))
      with (bind (invoke idx cb call)
              (fun _ => fire_from (S idx) call (cb2 :: rest))) in H.
    apply bind_ok_inv in H. destruct H as ([] & w1 & _ & H).
    destruct (IH _ _ _ _ H) as (lin & Hl). exists lin.
    cbn [length]. now rewrite Nat.add_succ_r.
Qed.

(** X9. The hooks of a run are bracketed: whatever the outcome, if any hook
    was invoked at all then the first one was [on_train_begin] of the first
    callback; and when the run returns normally with callbacks attached, the
    last thing that happened is [on_train_end] of the last callback returning,
    so that the final [logs] are the ones it left. *)
Theorem train_begin_first_train_end_last v train_loader valid_loader epochs
    checkpoint callbacks w :
  omap invoked (w_trace w) = [] ->
  (omap invoked
     (w_trace (snd (train v train_loader valid_loader epochs checkpoint
                      callbacks w))) = [] \/
   head (omap invoked
           (w_trace (snd (train v train_loader valid_loader epochs checkpoint
                            callbacks w)))) = Some (O, on_train_begin)) /\
  (callbacks <> [] ->
   fst (train v train_loader valid_loader epochs checkpoint callbacks w)
     = Ok tt ->
   exists logs_in,
     last (w_trace (snd (train v train_loader valid_loader epochs checkpoint
                           callbacks w)))
       = Some (EvHook (length callbacks - 1) on_train_end logs_in
                 (w_logs (snd (train v train_loader valid_loader epochs
                                 checkpoint callbacks w)))
                 (Ok tt))).
Proof.
  intros H0. rewrite train_prefix.
  destruct (started_reads v callbacks (w_store w) w) as (_ & Hi & _).
  rewrite <- Hi in H0. clear Hi.
  set (ws := started v callbacks (w_store w) w) in *.
  set (load := match checkpoint_given checkpoint with
               | Some path =>
                   e <- _load_checkpoint v path ;;
                   match e with
                   | CpInt n => ret (1 + n)
                   | _ => raise (TypeError "unsupported operand type(s) for +=")
                   end
               | None => ret 1
               end).
  assert (Hload : w_trace (snd (load ws)) = w_trace ws).
  { subst load. destruct (checkpoint_given checkpoint) as [path|];
      [|reflexivity].
    unfold bind.
    pose proof (_load_checkpoint_keeps v path ws) as K.
    destruct (_load_checkpoint v path ws) as [[[?|?|?]|e] w1]; cbn in K |- *;
      apply K. }
  unfold bind. destruct (load ws) as [[start|e] w1]; cbn [snd] in Hload.
  2: { cbn [fst snd]. rewrite Hload. split; [now left|discriminate]. }
  rewrite <- Hload in H0. clear Hload. split.
  - unfold run_from. destruct callbacks as [|cb rest].
    + left.
      apply (preserves_bind (fun w => omap invoked (w_trace w) = []));
        [intros w2 H; exact H| |exact H0].
      intros _.
      apply preserves_bind; [|intros _ w2 H; exact H].
      apply preserves_for_each. intros epoch. apply one_epoch_no_hooks.
    + right. unfold fire at 1. cbn [fire_from]. unfold bind at 1 2, invoke.
      destruct (dispatch cb on_train_begin (w_logs w1, w_store w1, w_ext w1))
        as [r [[l st] ext]].
      match goal with
      | |- context [w_trace w1 ++ [?ev]] =>
          assert (H1 : head (omap invoked (w_trace w1 ++ [ev]))
                       = Some (O, on_train_begin))
            by (rewrite omap_app, H0; reflexivity)
      end.
      destruct r as [[]|e]; [|exact H1].
      apply (run_rest_stable _ v train_loader valid_loader (cb :: rest) rest
               (range start (epochs + 1))
               (first_hook_stable (O, on_train_begin))).
      exact H1.
  - intros Hne Hok. unfold run_from in *.
    destruct (bind (fire on_train_begin callbacks)
                (fun _ =>
                   for_each (range start (epochs + 1))
                     (one_epoch v train_loader valid_loader callbacks) ;;
                   fire on_train_end callbacks) w1) as [r w'] eqn:E.
    cbn [fst snd] in Hok |- *. subst r.
    apply bind_ok_inv in E. destruct E as ([] & w2 & _ & E).
    apply bind_ok_inv in E. destruct E as ([] & w3 & _ & E).
    destruct callbacks as [|cb rest]; [contradiction|].
    destruct (fire_from_last _ _ _ _ _ _ E) as (lin & Hl).
    exists lin. rewrite Hl. cbn [length]. repeat f_equal. lia.
Qed.

(** *** Where an exception of a run comes from *)

Lemma hf_for_each {X} (xs : list X) (body : X -> M unit) :
  (forall x, hook_fault (body x)) -> hook_fault (for_each xs body).
Proof.
  intros Hb. induction xs as [|x xs IH]; [apply hf_ret|].
  cbn [for_each]. apply hf_bind; auto.
Qed.

(** X10. Over loaders that are not empty, and from scratch or from a
    complete checkpoint, the controller itself never raises: whatever [train]
    raises was raised by a hook, and that invocation is the last thing the run
    did. Nothing catches the exception and no later hook, [on_train_end]
    included, is invoked after it. *)
Theorem train_raises_only_from_hooks v train_loader valid_loader epochs
    checkpoint callbacks w start st e w' :
  train_loader <> [] -> valid_loader <> [] ->
  resumes checkpoint (w_store w) start st ->
  train v train_loader valid_loader epochs checkpoint callbacks w
    = (Raise e, w') ->
  exists idx call logs_in logs_out,
    last (w_trace w') = Some (EvHook idx call logs_in logs_out (Raise e)).
Proof.
  intros Ht1 Ht2 Hr E.
  rewrite (train_unfold _ _ _ _ _ _ _ _ _ Hr) in E.
  revert E. generalize (started v callbacks st w). intros ws E.
  refine (hf_bind _ _ _ _ ws e w' E); [apply hf_fire|intros _].
  apply hf_bind; [|intros _; apply hf_fire].
  apply hf_for_each. intros epoch. unfold one_epoch.
  apply hf_bind; [apply hf_fire|intros _].
  apply hf_bind; [now apply hf__train|intros _].
  apply hf_bind; [now apply hf__validate|intros _; apply hf_fire].
Qed.

(** *** Training without mixed precision *)

Lemma update_disabled s :
  GradScaler.enabled s = false -> GradScaler.update s = s.
Proof. intros H. unfold GradScaler.update. now rewrite H. Qed.

(** X11. A controller built without mixed precision, or on a machine without
    CUDA, has its gradient scaler disabled; and under a disabled scaler every
    training batch takes the optimizer step on the gradients of its backward
    pass, whether they are finite or not, and leaves the scaler as it is. *)
Theorem disabled_scaler_always_steps hparams_lambda_rec loss gpu amp verb
    model_obj optimizer_obj enc0 dec0 opt0 rng0 v st0 :
  __init__ hparams_lambda_rec loss gpu amp verb model_obj optimizer_obj
    enc0 dec0 opt0 rng0 = Ok (v, st0) ->
  amp && cuda_is_available = false ->
  GradScaler.enabled (gscaler st0) = false /\
  forall x w,
    gscaler (w_store w) = gscaler st0 ->
    (optimizer_sd (w_store (snd (train_step v x w))),
     (encoder_sd (w_store (snd (train_step v x w))),
      decoder_sd (w_store (snd (train_step v x w)))))
      = optimizer_step (optimizer_sd (w_store w))
          (encoder_sd (w_store w), decoder_sd (w_store w))
          (batch_grads v x (w_store w)) /\
    grad (w_store (snd (train_step v x w)))
      = Some (batch_grads v x (w_store w)) /\
    gscaler (w_store (snd (train_step v x w))) = gscaler st0.
Proof.
  intros Hinit Hoff. unfold __init__ in Hinit.
  destruct (Device._configure_device cuda_is_available gpu) as [dev|e];
    [|discriminate].
  injection Hinit as <- <-. cbn [gscaler].
  assert (Hdis : GradScaler.enabled (GradScaler.init amp cuda_is_available)
                 = false) by exact Hoff.
  split; [exact Hdis|].
  intros x w Hg. rewrite <- Hg in Hdis |- *.
  rewrite (disabled_scaler_steps _ x w Hdis).
  unfold gscaler_update, apply_optimizer.
  cbn [grad set_grad optimizer_sd encoder_sd decoder_sd set_rng].
  destruct (optimizer_step (optimizer_sd (w_store w))
              (encoder_sd (w_store w), decoder_sd (w_store w))
              (batch_grads
                 {| enable_amp := amp; verbose := verb; device := dev;
                    model := model_obj; optimizer := optimizer_obj;
                    loss_fnc :=
                      match loss with
                      | Some f => f
                      | None =>
                          Loss.vae_logit_loss F_binary_cross_entropy_with_logits
                      end;
                    lambda_rec := hparams_lambda_rec;
                    comm_rank := if dist_is_initialized then dist_rank else 0;
                    comm_size :=
                      if dist_is_initialized then dist_world_size else 1 |}
                 x (w_store w))) as [o [e d]] eqn:Eo.
  cbn. rewrite (update_disabled _ Hdis). auto.
Qed.

(** *** What the first hook is handed *)

(** X12. The checkpoint is loaded and [logs] is filled before the first
    hook runs: with callbacks attached, the first callback's [on_train_begin]
    is invoked right after the controller's initial entries, on the restored
    model and optimizer, and on a [logs] that holds the model (unwrapped from
    [DistributedDataParallel]), the optimizer, the communicator size when
    [torch.distributed] is initialized, and nothing else. *)
Theorem on_train_begin_sees_restored_state v train_loader valid_loader epochs
    checkpoint cb rest w start st :
  resumes checkpoint (w_store w) start st ->
  exists logs_in tail,
    w_trace (snd (train v train_loader valid_loader epochs checkpoint
                    (cb :: rest) w))
      = w_trace w ++ init_skel v true
        ++ EvHook 0 on_train_begin logs_in
             (fst (fst (snd (dispatch cb on_train_begin
                               (logs_in, st, w_ext w)))))
             (fst (dispatch cb on_train_begin (logs_in, st, w_ext w)))
           :: tail /\
    logs_in !! "model"%string = Some (VObj (unwrap (model v))) /\
    logs_in !! "optimizer"%string = Some (VObj (optimizer v)) /\
    logs_in !! "comm_size"%string =
      (if dist_is_initialized then Some (VInt (comm_size v)) else None) /\
    (forall key : string,
       key <> "model"%string -> key <> "optimizer"%string ->
       key <> "comm_size"%string -> logs_in !! key = None).
Proof.
  intros Hr. rewrite (train_unfold _ _ _ _ _ _ _ _ _ Hr).
  set (ws := started v (cb :: rest) st w).
  exists (w_logs ws).
  assert (Htr : exists tail,
    w_trace (snd ((fire on_train_begin (cb :: rest) ;;
                   for_each (range start (epochs + 1))
                     (one_epoch v train_loader valid_loader (cb :: rest)) ;;
                   fire on_train_end (cb :: rest)) ws))
    = (w_trace ws
       ++ [EvHook 0 on_train_begin (w_logs ws)
             (fst (fst (snd (dispatch cb on_train_begin
                               (w_logs ws, st, w_ext w)))))
             (fst (dispatch cb on_train_begin (w_logs ws, st, w_ext w)))])
      ++ tail).
  { unfold fire at 1. cbn [fire_from]. unfold bind at 1 2, invoke.
    change (w_store ws) with st. change (w_ext ws) with (w_ext w).
    destruct (dispatch cb on_train_begin (w_logs ws, st, w_ext w))
      as [r [[l st'] ext]]. cbn [fst snd].
    destruct r as [[]|e].
    - match goal with
      | |- exists tail, _ = ?tr0 ++ tail =>
          apply (run_rest_stable _ v train_loader valid_loader (cb :: rest)
                   rest (range start (epochs + 1)) (prefix_stable tr0))
      end.
      exists []. cbn [w_trace]. now rewrite app_nil_r.
    - exists []. cbn [snd w_trace]. now rewrite app_nil_r. }
  destruct Htr as [tail Htr]. exists tail. split.
  { rewrite Htr. subst ws. unfold started at 1. cbn [w_trace truthy].
    now rewrite <- !List.app_assoc. }
  subst ws. unfold started. cbn [w_logs truthy].
  destruct dist_is_initialized.
  - split; [now rewrite lookup_insert_ne, lookup_insert_ne, lookup_insert_eq|].
    split; [now rewrite lookup_insert_ne, lookup_insert_eq|].
    split; [now rewrite lookup_insert_eq|].
    intros key H1 H2 H3.
    now rewrite !lookup_insert_ne, lookup_empty by congruence.
  - split; [now rewrite lookup_insert_ne, lookup_insert_eq|].
    split; [now rewrite lookup_insert_eq|].
    split; [now rewrite !lookup_insert_ne, lookup_empty|].
    intros key H1 H2 H3.
    now rewrite !lookup_insert_ne, lookup_empty by congruence.
Qed.

End Controller.

(** ** Device resolution *)



(** ** The KL term of the losses *)










(** ** [minmax] *)

Section MinmaxBounds.
Context {A : Type} (ltb : A -> A -> bool).
Hypothesis ltb_irrefl : forall a, ltb a a = false.
Hypothesis ltb_trans :
  forall a b c, ltb a b = true -> ltb b c = true -> ltb a c = true.

Lemma minmax_loop_bounds : forall xs max_ min_ seen,
  In max_ seen -> In min_ seen ->
  ltb max_ min_ = false ->
  (forall y, In y seen -> ltb y min_ = false /\ ltb max_ y = false) ->
  In (fst (Embedding.minmax_loop A ltb xs max_ min_)) (seen ++ xs) /\
  In (snd (Embedding.minmax_loop A ltb xs max_ min_)) (seen ++ xs) /\
  forall y, In y (seen ++ xs) ->
    ltb y (fst (Embedding.minmax_loop A ltb xs max_ min_)) = false /\
    ltb (snd (Embedding.minmax_loop A ltb xs max_ min_)) y = false.
Proof.
  induction xs as [|i xs IH]; intros max_ min_ seen Hmax Hmin Hmm Hb.
  - cbn. rewrite app_nil_r. auto.
  - assert (Hnot : forall a b, ltb a b = false \/ ltb a b = true)
      by (intros a b; destruct (ltb a b); auto).
    cbn [Embedding.minmax_loop].
    replace (seen ++ i :: xs) with ((seen ++ [i]) ++ xs)
      by now rewrite <- List.app_assoc.
    destruct (ltb max_ i) eqn:E1; [|destruct (ltb i min_) eqn:E2].
    + assert (Hi : ltb i min_ = false).
      { destruct (Hnot i min_) as [|H]; [assumption|].
        rewrite (ltb_trans _ _ _ E1 H) in Hmm. discriminate. }
      apply IH.
      * apply in_or_app. right. now left.
      * apply in_or_app. now left.
      * exact Hi.
      * intros y Hy. apply in_app_or in Hy. destruct Hy as [Hy|[<-|[]]].
        -- destruct (Hb y Hy) as [H1 H2]. split; [exact H1|].
           destruct (Hnot i y) as [|H]; [assumption|].
           rewrite (ltb_trans _ _ _ E1 H) in H2. discriminate.
        -- split; [exact Hi|apply ltb_irrefl].
    + apply IH.
      * apply in_or_app. now left.
      * apply in_or_app. right. now left.
      * exact E1.
      * intros y Hy. apply in_app_or in Hy. destruct Hy as [Hy|[<-|[]]].
        -- destruct (Hb y Hy) as [H1 H2]. split; [|exact H2].
           destruct (Hnot y i) as [|H]; [assumption|].
           rewrite (ltb_trans _ _ _ H E2) in H1. discriminate.
        -- split; [apply ltb_irrefl|exact E1].
    + apply IH.
      * apply in_or_app. now left.
      * apply in_or_app. now left.
      * exact Hmm.
      * intros y Hy. apply in_app_or in Hy. destruct Hy as [Hy|[<-|[]]].
        -- now apply Hb.
        -- split; assumption.
Qed.

End MinmaxBounds.

(** X14. On a sequence that is not empty, and for any strict order on its
    elements, [minmax] returns two of its elements, the minimum first: no
    element is smaller than the first and none is greater than the second. *)
Theorem minmax_bounds {A : Type} (ltb : A -> A -> bool) (x : list A) :
  (forall a, ltb a a = false) ->
  (forall a b c, ltb a b = true -> ltb b c = true -> ltb a c = true) ->
  x <> [] ->
  exists min_ max_,
    Embedding.minmax A ltb x = Some (min_, max_) /\
    In min_ x /\ In max_ x /\
    forall y, In y x -> ltb y min_ = false /\ ltb max_ y = false.
Proof.
  intros Hirr Htr Hne. destruct x as [|x0 rest]; [contradiction|].
  cbn [Embedding.minmax].
  pose proof (minmax_loop_bounds ltb Hirr Htr rest x0 x0 [x0]) as H.
  destruct (Embedding.minmax_loop A ltb rest x0 x0) as [lo hi].
  exists lo, hi. split; [reflexivity|]. apply H.
  - now left.
  - now left.
  - apply Hirr.
  - intros y [<-|[]]. split; apply Hirr.
Qed.

(** ** [ContactMapDataset] *)

Lemma int_split_bounds (p : Q) (n : Z) :
  (0 <= p)%Q -> (p <= 1)%Q -> 0 <= n ->
  0 <= ContactMap.int (p * inject_Z n) <= n.
Proof.
  intros H0 H1 Hn. unfold ContactMap.int.
  destruct p as [a b]. unfold Qle in H0, H1. cbn in H0, H1 |- *.
  rewrite Pos.mul_1_r. split.
  - apply Z.quot_pos; nia.
  - apply Z.quot_le_upper_bound; nia.
Qed.

Lemma range_shift {Y} (f : Z -> Y) (k n : Z) :
  map (fun i => f (i + k)) (range 0 n) = map f (range k (k + n)).
Proof.
  unfold range. rewrite !List.map_map.
  replace (Z.to_nat (k + n - k)) with (Z.to_nat (n - 0)) by lia.
  apply List.map_ext. intros i. f_equal. lia.
Qed.

Section ContactMapFacts.
Context {node X : Type}.
Variable h5_len : node -> Z.
Variable h5_shape : node -> Z -> Z.
Variable h5_get : node -> string -> node.
Variable h5_getitem : node -> Z -> X.

Lemma init_dense contact_maps split_ptc split squeeze gpu cuda ds :
  ContactMap.__init__ node h5_len h5_shape h5_get contact_maps split_ptc split
    squeeze false gpu cuda = inr ds ->
  (split = "train"%string \/ split = "valid"%string) /\
  (0 <= split_ptc)%Q /\ (split_ptc <= 1)%Q /\
  ContactMap.dset node ds = Some contact_maps /\
  ContactMap.sparse node ds = false /\
  ContactMap.split node ds = split /\
  ContactMap.split_ind node ds
    = ContactMap.int (split_ptc * inject_Z (h5_len contact_maps)).
Proof.
  unfold ContactMap.__init__.
  destruct (String.eqb_spec split "train") as [Ht|Ht];
    [|destruct (String.eqb_spec split "valid") as [Hv|Hv]];
    cbn [orb negb]; try discriminate;
    (destruct (Qle_bool 0 split_ptc) eqn:E0; [|discriminate]);
    (destruct (Qle_bool split_ptc 1) eqn:E1; [|discriminate]);
    cbn; intros H; injection H as <-; cbn;
    apply Qle_bool_iff in E0, E1; auto 10.
Qed.



(** X16. The training and the validation dataset made from one file with
    one [split_ptc] divide it: their lengths are not negative and add up to
    the number of contact maps, and the items of the training dataset followed
    by those of the validation dataset, each over the indices below its
    length, are the contact maps of the file, each once and in file order. *)
Theorem ContactMapDataset_split_partitions contact_maps split_ptc squeeze gpu
    cuda squeeze' gpu' cuda' train_set valid_set :
  0 <= h5_len contact_maps ->
  ContactMap.__init__ node h5_len h5_shape h5_get contact_maps split_ptc
    "train" squeeze false gpu cuda = inr train_set ->
  ContactMap.__init__ node h5_len h5_shape h5_get contact_maps split_ptc
    "valid" squeeze' false gpu' cuda' = inr valid_set ->
  exists n_train n_valid,
    ContactMap.__len__ node h5_len train_set = inr n_train /\
    ContactMap.__len__ node h5_len valid_set = inr n_valid /\
    0 <= n_train /\ 0 <= n_valid /\
    n_train + n_valid = h5_len contact_maps /\
    map (ContactMap.__getitem__ node X h5_getitem train_set) (range 0 n_train)
    ++ map (ContactMap.__getitem__ node X h5_getitem valid_set)
         (range 0 n_valid)
    = map (fun i => inr (ContactMap.Dense X (h5_getitem contact_maps i)))
        (range 0 (h5_len contact_maps)).
Proof.
  intros Hn Ht Hv.
  destruct (init_dense _ _ _ _ _ _ _ Ht) as (_ & H0 & H1 & Td & Ts & Tsp & Ti).
  destruct (init_dense _ _ _ _ _ _ _ Hv) as (_ & _ & _ & Vd & Vs & Vsp & Vi).
  pose proof (int_split_bounds split_ptc (h5_len contact_maps) H0 H1 Hn) as Hb.
  set (k := ContactMap.int (split_ptc * inject_Z (h5_len contact_maps))) in *.
  exists k, (h5_len contact_maps - k).
  unfold ContactMap.__len__, ContactMap.__getitem__.
  rewrite Td, Ts, Tsp, Ti, Vd, Vs, Vsp, Vi. cbn.
  split; [reflexivity|]. split; [reflexivity|].
  split; [lia|]. split; [lia|]. split; [lia|].
  rewrite (range_shift
             (fun i => inr (ContactMap.Dense X (h5_getitem contact_maps i)))
             k (h5_len contact_maps - k)).
  replace (k + (h5_len contact_maps - k)) with (h5_len contact_maps) by lia.
  rewrite <- List.map_app. f_equal. apply range_app; lia.
Qed.

End ContactMapFacts.


(** ** [parse_dict] *)

Lemma append_nil_l s : String.append EmptyString s = s.
Proof. reflexivity. Qed.

Lemma append_cons c s t :
  String.append (String c s) t = String c (String.append s t).
Proof. reflexivity. Qed.

Lemma split_length sep s : length (Cli.split sep s) = S (Cli.count sep s).
Proof.
  induction s as [|c s IH]; [reflexivity|]. cbn [Cli.split Cli.count].
  destruct (Ascii.eqb c sep); cbn [length]; [now rewrite IH|].
  destruct (Cli.split sep s); [discriminate|]. cbn [length] in *. lia.
Qed.

Lemma split_free sep s : Cli.count sep s = O -> Cli.split sep s = [s].
Proof.
  induction s as [|c s IH]; [reflexivity|]. cbn [Cli.split Cli.count].
  destruct (Ascii.eqb c sep); [discriminate|]. intros H.
  now rewrite (IH H).
Qed.

Lemma split_append sep s t :
  Cli.count sep s = O ->
  Cli.split sep (String.append s (String sep t)) = s :: Cli.split sep t.
Proof.
  induction s as [|c s IH].
  - intros _. rewrite append_nil_l. cbn [Cli.split].
    now rewrite Ascii.eqb_refl.
  - rewrite append_cons. cbn [Cli.split Cli.count].
    destruct (Ascii.eqb c sep); [discriminate|]. intros H.
    now rewrite (IH H).
Qed.

Lemma split_join sep items :
  items <> [] ->
  Forall (fun s => Cli.count sep s = O) items ->
  Cli.split sep (Cli.join sep items) = items.
Proof.
  intros Hne H. induction H as [|x rest Hx Hrest IH]; [contradiction|].
  destruct rest as [|y rest].
  - cbn. now apply split_free.
  - change (Cli.join sep (x :: y :: rest))
      with (String.append x (String sep (Cli.join sep (y :: rest)))).
    rewrite (split_append sep x _ Hx). f_equal. now apply IH.
Qed.

Lemma count_append c s t :
  Cli.count c (String.append s t) = (Cli.count c s + Cli.count c t)%nat.
Proof.
  induction s as [|c' s IH]; [reflexivity|].
  rewrite append_cons. cbn [Cli.count]. rewrite IH. lia.
Qed.

Lemma parse_items_items kvs : forall result,
  Forall (fun kv => Cli.count "="%char (fst kv) = O /\
                    Cli.count "="%char (snd kv) = O) kvs ->
  Cli.parse_items (map Cli.item kvs) result = Ok (Cli.assign_all kvs result).
Proof.
  induction kvs as [|[k v] kvs IH]; intros result H; [reflexivity|].
  inversion H as [|? ? [Hk Hv] Hrest]; subst. cbn in Hk, Hv.
  cbn [map Cli.parse_items]. unfold Cli.item at 1. cbn [fst snd].
  rewrite (split_append "="%char k v Hk), (split_free _ v Hv).
  now apply IH.
Qed.

(** X17. [parse_dict] reads back what was written as [k1=v1,k2=v2,...]: for
    keys and values that hold neither a comma nor an equals sign, it returns
    the dictionary that assigns each value to its key in turn, so that of two
    items with the same key the later one wins. *)
Theorem parse_dict_reads_back (kvs : list (string * string)) :
  kvs <> [] ->
  Forall (fun kv =>
            Cli.count ","%char (fst kv) = O /\
            Cli.count "="%char (fst kv) = O /\
            Cli.count ","%char (snd kv) = O /\
            Cli.count "="%char (snd kv) = O) kvs ->
  Cli.parse_dict (Some (Cli.join ","%char (map Cli.item kvs)))
    = Ok (Some (Cli.assign_all kvs ∅)).
Proof.
  intros Hne H. unfold Cli.parse_dict.
  rewrite split_join.
  - rewrite parse_items_items; [reflexivity|].
    eapply List.Forall_impl; [|exact H]. intros kv (_ & H1 & _ & H2). auto.
  - destruct kvs; [contradiction|discriminate].
  - apply Forall_map. eapply List.Forall_impl; [|exact H].
    intros [k v] (H1 & _ & H2 & _). cbn in *. unfold Cli.item. cbn [fst snd].
    rewrite count_append. cbn. lia.
Qed.

Lemma parse_items_ok token : forall result,
  is_ok (Cli.parse_items token result)
    = forallb (fun s => Nat.eqb (Cli.count "="%char s) 1) token.
Proof.
  induction token as [|s token IH]; intros result; [reflexivity|].
  cbn [Cli.parse_items forallb].
  pose proof (split_length "="%char s) as Hl.
  destruct (Cli.split "="%char s) as [|k [|v [|x rest]]]; cbn in Hl.
  - discriminate.
  - injection Hl as <-. reflexivity.
  - injection Hl as <-. cbn. apply IH.
  - injection Hl as <-. reflexivity.
Qed.

(** X18. [parse_dict] returns [None] for [None], and for a string it
    returns a dictionary exactly when every comma-separated item holds one
    equals sign; otherwise the unpacking of [item.split("=")] raises
    [ValueError]. The empty string is such a failure. *)
Theorem parse_dict_ok_iff (value : string) :
  Cli.parse_dict None = Ok None /\
  is_ok (Cli.parse_dict (Some value))
    = forallb (fun s => Nat.eqb (Cli.count "="%char s) 1)
        (Cli.split ","%char value) /\
  (is_ok (Cli.parse_dict (Some value)) = false ->
   exists msg, Cli.parse_dict (Some value) = Raise (Py.ValueError msg)) /\
  Cli.parse_dict (Some EmptyString)
    = Raise (Py.ValueError Cli.not_enough_msg).
Proof.
  split; [reflexivity|]. split; [|split; [|reflexivity]].
  - unfold Cli.parse_dict.
    rewrite <- (parse_items_ok (Cli.split ","%char value) ∅).
    now destruct (Cli.parse_items (Cli.split ","%char value) ∅).
  - unfold Cli.parse_dict.
    generalize (∅ : gmap string string).
    induction (Cli.split ","%char value) as [|s token IH]; intros result;
      [discriminate|].
    cbn [Cli.parse_items].
    destruct (Cli.split "="%char s) as [|k [|v [|x rest]]]; cbn; eauto.
Qed.

(** ** A small concrete instance

    One weight per network, gradients reduced to whether they hold a
    non-finite entry (they do for a batch without data), an optimizer that
    increments everything it touches, and two checkpoint files: a complete one
    recorded after epoch 1 and one that lost its [epoch] field. *)

Arguments CpStateDict {state_dict opt_state} sd.
Arguments CpOptimizer {state_dict opt_state} o.
Arguments CpInt {state_dict opt_state} n.

Module Toy.

Definition encoder (sd : Z) (training : bool) (x : tensor) : tensor * tensor :=
  (x, x).

Definition decoder (sd : Z) (training : bool) (z : tensor) : tensor := z.

Definition randn_like (r : nat) (t : tensor) : tensor * nat :=
  (map (fun _ => 0%R) t, S r).

Definition F_bce (logits x : tensor) : R := 1%R.

Definition backward (f : loss_fn) (lam : R) (enc dec : Z) (training : bool)
    (r : nat) (x : tensor) (factor : R) : bool :=
  match x with [] => true | _ :: _ => false end.

Definition grads_nonfinite (g : bool) : bool := g.

Definition unscale (s : R) (g : bool) : bool := g.

Definition optimizer_step (o : Z) (p : Z * Z) (g : bool) : Z * (Z * Z) :=
  (o + 1, (fst p + 1, snd p + 1)).

Definition torn_checkpoint : gmap string (cp_value Z Z) :=
  <["encoder_state_dict"%string := CpStateDict 7]>
    (<["decoder_state_dict"%string := CpStateDict 8]>
       (<["optimizer_state_dict"%string := CpOptimizer 9]> ∅)).

Definition good_checkpoint : gmap string (cp_value Z Z) :=
  <["epoch"%string := CpInt 1]> torn_checkpoint.

Definition torch_load (path : string) : option (gmap string (cp_value Z Z)) :=
  if String.eqb path "epoch-1.pt" then Some good_checkpoint
  else if String.eqb path "torn.pt" then Some torn_checkpoint
  else None.

(** What the reading callback keeps: the epoch and what it found in [logs]. *)
Definition W : Type := list (Z * option value).

Definition Callback : Type := Callback Z Z bool nat W.
Definition world : Type := world Z Z bool nat W.

Definition vae : VAE :=
  {| enable_amp := true; verbose := false;
     device := (Device.cuda, Device.cuda);
     model := Plain 1%nat; optimizer := 2%nat;
     loss_fnc := Loss.vae_logit_loss F_bce;
     lambda_rec := 1;
     comm_rank := 0; comm_size := 1 |}.

Definition store0 : store Z Z bool nat :=
  {| encoder_sd := 0; decoder_sd := 0; training := true; optimizer_sd := 0;
     grad := None; gscaler := GradScaler.init true true; rng := O |}.

Definition w0 : world :=
  {| w_store := store0; w_logs := ∅; w_ext := []; w_trace := [] |}.

Definition batch : Batch :=
  {| data := [0%R]; rmsd := []; fnc := []; index := [] |}.

Definition empty_batch : Batch :=
  {| data := []; rmsd := []; fnc := []; index := [] |}.

Definition idle : hook Z Z bool nat W := fun vw => (Ok tt, vw).

(** A callback whose hooks all do nothing. *)
Definition noop : Callback :=
  {| cb_on_train_begin := idle;
     cb_on_epoch_begin := fun _ => idle;
     cb_on_batch_begin := fun _ _ => idle;
     cb_on_batch_end := fun _ _ => idle;
     cb_on_epoch_end := fun _ => idle;
     cb_on_validation_begin := fun _ => idle;
     cb_on_validation_batch_end := fun _ _ _ _ _ => idle;
     cb_on_validation_end := fun _ => idle;
     cb_on_train_end := idle |}.

(** [A]: at the end of an epoch, [logs["seen"] = epoch]. *)
Definition writer : Callback :=
  {| cb_on_train_begin := idle;
     cb_on_epoch_begin := fun _ => idle;
     cb_on_batch_begin := fun _ _ => idle;
     cb_on_batch_end := fun _ _ => idle;
     cb_on_epoch_end := fun epoch vw =>
       let '(logs, st, ext) := vw in
       (Ok tt, (<["seen"%string := VInt epoch]> logs, st, ext));
     cb_on_validation_begin := fun _ => idle;
     cb_on_validation_batch_end := fun _ _ _ _ _ => idle;
     cb_on_validation_end := fun _ => idle;
     cb_on_train_end := idle |}.

(** [B]: at the end of an epoch, keeps what [logs["seen"]] holds. *)
Definition reader : Callback :=
  {| cb_on_train_begin := idle;
     cb_on_epoch_begin := fun _ => idle;
     cb_on_batch_begin := fun _ _ => idle;
     cb_on_batch_end := fun _ _ => idle;
     cb_on_epoch_end := fun epoch vw =>
       let '(logs, st, ext) := vw in
       (Ok tt, (logs, st, ext ++ [(epoch, logs !! "seen"%string)]));
     cb_on_validation_begin := fun _ => idle;
     cb_on_validation_batch_end := fun _ _ _ _ _ => idle;
     cb_on_validation_end := fun _ => idle;
     cb_on_train_end := idle |}.

Definition train (v : VAE) (train_loader valid_loader : list Batch)
    (epochs : Z) (checkpoint : option string) (callbacks : list Callback)
  : world -> result unit * world :=
  train Z Z bool nat encoder decoder randn_like backward grads_nonfinite
    unscale optimizer_step torch_load false W v train_loader valid_loader
    epochs checkpoint callbacks.

Definition train_step (v : VAE) (x : tensor)
  : world -> result (R * R * R) * world :=
  train_step Z Z bool nat encoder decoder randn_like backward grads_nonfinite
    unscale optimizer_step W v x.

Definition train_batch (v : VAE) (train_loader : list Batch) (epoch : Z)
    (callbacks : list Callback) (train_loss : R) (batch_idx : Z)
    (token : Batch) : world -> result R * world :=
  train_batch Z Z bool nat encoder decoder randn_like backward grads_nonfinite
    unscale optimizer_step W v train_loader epoch callbacks train_loss
    batch_idx token.

Definition __init__ (loss : option loss_fn) : result (VAE * store Z Z bool nat) :=
  __init__ Z Z bool nat F_bce true false 0 1 1%R loss Device.GNone true false
    (Plain 1%nat) 2%nat 0 0 0 O.

Lemma noop_total : cb_total Z Z bool nat W noop.
Proof. intros [] vw; reflexivity. Qed.


Lemma reader_total : cb_total Z Z bool nat W reader.
Proof. intros [] [[logs st] ext]; reflexivity. Qed.

Lemma reader_observer : cb_observer Z Z bool nat W reader.
Proof. intros [] [[logs st] ext]; split; reflexivity. Qed.

Lemma good_checkpoint_well_formed :
  well_formed_checkpoint Z Z good_checkpoint 7 8 9 1.
Proof. repeat split; reflexivity. Qed.

End Toy.

(** ** The theorems at work on the concrete instance *)

(** One epoch, then a resumed run up to epoch 2 from the checkpoint of epoch 1. *)
Lemma train_resume_witness :
  exists w1 w2,
    Toy.train Toy.vae [Toy.batch] [Toy.batch] 1 None [] Toy.w0 = (Ok tt, w1) /\
    Toy.train Toy.vae [Toy.batch] [Toy.batch] 2 (Some "epoch-1.pt"%string) [] w1
      = (Ok tt, w2) /\
    epochs_trained (w_trace _ _ _ _ _ w2) = [1; 2].
Proof.
  destruct (train_resume Z Z bool nat Toy.encoder Toy.decoder Toy.randn_like
              Toy.backward Toy.grads_nonfinite Toy.unscale Toy.optimizer_step
              Toy.torch_load false Toy.W Toy.vae [Toy.batch] [Toy.batch] []
              1 2 "epoch-1.pt"%string Toy.good_checkpoint 7 8 9)
    as (_ & _ & H).
  - constructor.
  - discriminate.
  - discriminate.
  - lia.
  - discriminate.
  - reflexivity.
  - exact Toy.good_checkpoint_well_formed.
  - destruct (H Toy.w0) as (w1 & w2 & wE & R1 & R2 & _ & T & _).
    exists w1, w2. split; [exact R1|]. split; [exact R2|exact T].
Defined.


(** A batch without data under an enabled scaler: no step, a smaller scale,
    and its loss in the running sum. *)
Lemma nonfinite_gradients_skip_step_witness :
  exists loss_rec loss_kld loss w2 w',
    Toy.train_step Toy.vae [] Toy.w0 = (Ok (loss_rec, loss_kld, loss), w2) /\
    encoder_sd _ _ _ _ (w_store _ _ _ _ _ w2) = 0 /\
    decoder_sd _ _ _ _ (w_store _ _ _ _ _ w2) = 0 /\
    optimizer_sd _ _ _ _ (w_store _ _ _ _ _ w2) = 0 /\
    (GradScaler.scale (gscaler _ _ _ _ (w_store _ _ _ _ _ w2)) < 65536)%R /\
    Toy.train_batch Toy.vae [Toy.empty_batch] 1 [] 0%R 0 Toy.empty_batch Toy.w0
      = (Ok (0 + loss)%R, w') /\
    losses Training 1 (w_trace _ _ _ _ _ w') = [] ++ [loss].
Proof.
  apply (nonfinite_gradients_skip_step Z Z bool nat Toy.encoder Toy.decoder
           Toy.randn_like Toy.backward Toy.grads_nonfinite Toy.unscale
           Toy.optimizer_step Toy.W Toy.vae [Toy.empty_batch] 1 [] 0%R 0
           Toy.empty_batch Toy.w0 Toy.w0).
  - constructor.
  - reflexivity.
  - reflexivity.
  - cbn. lra.
  - cbn. lra.
  - reflexivity.
Defined.

(** The controller built with the default loss. *)
Lemma default_loss_formula_witness :
  Toy.__init__ None = Ok (Toy.vae, Toy.store0) /\
  fst (Toy.train_step Toy.vae [0%R] Toy.w0)
    = Ok (Toy.F_bce [(0 + 0 * exp (0.5 * 0))%R] [0%R],
          (-0.5 * Loss.torch_mean [(1 + 0 - 0 ^ 2 - exp 0)%R])%R,
          (1 * Toy.F_bce [(0 + 0 * exp (0.5 * 0))%R] [0%R]
           + -0.5 * Loss.torch_mean [(1 + 0 - 0 ^ 2 - exp 0)%R])%R) /\
  Loss.KLD (repeat 0%R 3) (repeat 0%R 3) = 0%R.
Proof.
  assert (Hinit : Toy.__init__ None = Ok (Toy.vae, Toy.store0)) by reflexivity.
  destruct (default_loss_formula Z Z bool nat Toy.encoder Toy.decoder
              Toy.randn_like Toy.F_bce Toy.backward Toy.grads_nonfinite
              Toy.unscale Toy.optimizer_step true false 0 1 Toy.W 1%R
              Device.GNone true false (Plain 1%nat) 2%nat 0 0 0 O
              Toy.vae Toy.store0 Hinit) as (Hloss & Hkld).
  split; [exact Hinit|]. split.
  - exact (proj1 (Hloss [0%R] Toy.w0)).
  - apply Hkld. lia.
Defined.

(** A loss function of the caller's own, as [VAE.__init__] accepts. *)
Definition custom_loss : loss_fn := fun _ _ _ _ => (0%R, 5%R).

(** C4 as stated fails: built with [custom_loss], the controller computes a
    batch loss of [1 * 0 + 5], not [lambda_rec * BCE + KLD], which is
    [1 * 1 + 0] on this batch. *)
Lemma custom_loss_counterexample :
  exists v st loss,
    Toy.__init__ (Some custom_loss) = Ok (v, st) /\
    fst (Toy.train_step v [0%R] Toy.w0) = Ok (0%R, 5%R, loss) /\
    loss = (1 * 0 + 5)%R /\
    (lambda_rec v * Toy.F_bce [(0 + 0 * exp (0.5 * 0))%R] [0%R]
     + Loss.KLD [0%R] [0%R])%R = 1%R /\
    loss <> (lambda_rec v * Toy.F_bce [(0 + 0 * exp (0.5 * 0))%R] [0%R]
             + Loss.KLD [0%R] [0%R])%R.
Proof.
  eexists _, _, _. split; [reflexivity|]. split; [reflexivity|].
  split; [reflexivity|].
  assert (Hk : Loss.KLD [0%R] [0%R] = 0%R) by exact (KLD_zero 1).
  cbn [lambda_rec]. unfold Toy.F_bce. rewrite Hk. split; lra.
Qed.




(** The reading callback only observes: the run computes what it computes
    without callbacks. *)
Lemma no_callbacks_empty_logs_witness :
  w_logs _ _ _ _ _
    (snd (Toy.train Toy.vae [Toy.batch] [Toy.batch] 2 None [] Toy.w0)) = ∅ /\
  fst (Toy.train Toy.vae [Toy.batch] [Toy.batch] 2 None [Toy.reader] Toy.w0)
    = fst (Toy.train Toy.vae [Toy.batch] [Toy.batch] 2 None [] Toy.w0) /\
  w_store _ _ _ _ _
    (snd (Toy.train Toy.vae [Toy.batch] [Toy.batch] 2 None [Toy.reader] Toy.w0))
    = w_store _ _ _ _ _
        (snd (Toy.train Toy.vae [Toy.batch] [Toy.batch] 2 None [] Toy.w0)).
Proof.
  destruct (no_callbacks_empty_logs Z Z bool nat Toy.encoder Toy.decoder
              Toy.randn_like Toy.backward Toy.grads_nonfinite Toy.unscale
              Toy.optimizer_step Toy.torch_load false Toy.W Toy.vae
              [Toy.batch] [Toy.batch] 2 None Toy.w0)
    as ((Hlogs & _) & H).
  split; [exact Hlogs|].
  assert (Hobs : Forall (cb_observer Z Z bool nat Toy.W) [Toy.reader])
    by (constructor; [exact Toy.reader_observer|constructor]).
  pose proof (H [Toy.reader] Hobs) as H1. cbv zeta in H1.
  destruct H1 as (Hr & Hs & _).
  split; [exact Hr|exact Hs].
Defined.

(** A training source without batches. *)
Lemma batch_idx_bound_iff_batches_witness :
  fst (Toy.train Toy.vae [] [Toy.batch] 1 None [Toy.noop] Toy.w0)
    = Raise (UnboundLocalError "batch_idx") /\
  fst (Toy.train Toy.vae [Toy.batch] [Toy.batch] 1 None [Toy.noop] Toy.w0)
    = Ok tt.
Proof.
  destruct (batch_idx_bound_iff_batches Z Z bool nat Toy.encoder Toy.decoder
              Toy.randn_like Toy.backward Toy.grads_nonfinite Toy.unscale
              Toy.optimizer_step Toy.torch_load false Toy.W Toy.vae)
    as (_ & _ & Hraise & Hok & _).
  assert (Ht : Forall (cb_total Z Z bool nat Toy.W) [Toy.noop])
    by (constructor; [exact Toy.noop_total|constructor]).
  split.
  - apply Hraise; [exact Ht|lia|now left].
  - apply Hok; [exact Ht|discriminate|discriminate].
Defined.

(** ** More of the concrete instance *)

Module Toy2.

Definition compute_losses (v : VAE) (data_loader : list Batch)
    (checkpoint : string)
  : Toy.world -> result (list R * list R * list tensor) * Toy.world :=
  compute_losses Z Z bool nat Toy.encoder Toy.decoder Toy.randn_like Toy.F_bce
    Toy.torch_load Toy.W v data_loader checkpoint.

Definition _validate (v : VAE) (valid_loader : list Batch) (epoch : Z)
    (callbacks : list Toy.Callback) : Toy.world -> result unit * Toy.world :=
  _validate Z Z bool nat Toy.encoder Toy.decoder Toy.randn_like Toy.W v
    valid_loader epoch callbacks.

(** A callback whose [on_train_begin] raises. *)
Definition failing : Toy.Callback :=
  {| cb_on_train_begin := fun vw => (Raise (CallbackError "stop"), vw);
     cb_on_epoch_begin := fun _ => Toy.idle;
     cb_on_batch_begin := fun _ _ => Toy.idle;
     cb_on_batch_end := fun _ _ => Toy.idle;
     cb_on_epoch_end := fun _ => Toy.idle;
     cb_on_validation_begin := fun _ => Toy.idle;
     cb_on_validation_batch_end := fun _ _ _ _ _ => Toy.idle;
     cb_on_validation_end := fun _ => Toy.idle;
     cb_on_train_end := Toy.idle |}.

(** The controller built with mixed precision asked for on a machine
    without CUDA. *)
Definition cpu_vae : VAE :=
  {| enable_amp := true; verbose := false;
     device := (Device.cpu, Device.cpu);
     model := Plain 1%nat; optimizer := 2%nat;
     loss_fnc := Loss.vae_logit_loss Toy.F_bce;
     lambda_rec := 1;
     comm_rank := 0; comm_size := 1 |}.

Definition cpu_store0 : store Z Z bool nat :=
  {| encoder_sd := 0; decoder_sd := 0; training := true; optimizer_sd := 0;
     grad := None; gscaler := GradScaler.init true false; rng := O |}.

Definition cpu_w0 : Toy.world :=
  {| w_store := cpu_store0; w_logs := ∅; w_ext := []; w_trace := [] |}.

End Toy2.

(** ** The further theorems at work on the concrete instance *)

(** Two batches evaluated from the checkpoint of epoch 1. *)
Lemma compute_losses_lists_witness :
  exists bce_losses kld_losses w',
    Toy2.compute_losses Toy.vae [Toy.batch; Toy.empty_batch] "epoch-1.pt"
      Toy.w0 = (Ok (bce_losses, kld_losses, [[]; []]), w') /\
    length bce_losses = 2%nat /\ length kld_losses = 2%nat /\
    w_trace _ _ _ _ _ w' = [].
Proof.
  destruct (compute_losses_lists Z Z bool nat Toy.encoder Toy.decoder
              Toy.randn_like Toy.F_bce Toy.torch_load Toy.W Toy.vae
              [Toy.batch; Toy.empty_batch] "epoch-1.pt"%string
              Toy.good_checkpoint 7 8 9 1 Toy.w0 eq_refl
              Toy.good_checkpoint_well_formed)
    as (bs & ks & w' & E & Hb & Hk & _ & _ & _ & Ht).
  exists bs, ks, w'. split; [exact E|]. split; [exact Hb|].
  split; [exact Hk|exact Ht].
Defined.



(** Resuming from a file that is not there. *)
Lemma train_missing_checkpoint_file_witness :
  exists w',
    Toy.train Toy.vae [Toy.batch] [Toy.batch] 2 (Some "nowhere.pt"%string)
      [Toy.noop] Toy.w0 = (Raise (FileNotFoundError "nowhere.pt"), w') /\
    omap invoked (w_trace _ _ _ _ _ w') = [].
Proof.
  destruct (train_missing_checkpoint_file Z Z bool nat Toy.encoder Toy.decoder
              Toy.randn_like Toy.backward Toy.grads_nonfinite Toy.unscale
              Toy.optimizer_step Toy.torch_load false Toy.W Toy.vae
              [Toy.batch] [Toy.batch] 2 "nowhere.pt"%string [Toy.noop] Toy.w0)
    as (w' & E & _ & Hi & _).
  - discriminate.
  - reflexivity.
  - exists w'. split; [exact E|exact Hi].
Defined.

(** Resuming from the checkpoint that lost its [epoch] field. *)
Lemma torn_checkpoint_is_half_loaded_witness :
  exists w',
    Toy.train Toy.vae [Toy.batch] [Toy.batch] 2 (Some "torn.pt"%string)
      [Toy.noop] Toy.w0 = (Raise (KeyError "epoch"), w') /\
    w_store _ _ _ _ _ w' = restore _ _ _ _ 7 8 9 Toy.store0.
Proof.
  destruct (torn_checkpoint_is_half_loaded Z Z bool nat Toy.encoder Toy.decoder
              Toy.randn_like Toy.backward Toy.grads_nonfinite Toy.unscale
              Toy.optimizer_step Toy.torch_load false Toy.W Toy.vae
              [Toy.batch] [Toy.batch] 2 "torn.pt"%string Toy.torn_checkpoint
              7 8 9 [Toy.noop] Toy.w0)
    as (_ & w' & E & Hs & _).
  - discriminate.
  - reflexivity.
  - reflexivity.
  - reflexivity.
  - reflexivity.
  - reflexivity.
  - exists w'. split; [exact E|exact Hs].
Defined.

(** One epoch asked for, resumed from the checkpoint of epoch 1, over
    loaders without batches. *)
Lemma train_nothing_left_to_run_witness :
  exists w',
    Toy.train Toy.vae [] [] 1 (Some "epoch-1.pt"%string) [Toy.noop] Toy.w0
      = (Ok tt, w') /\
    epochs_trained (w_trace _ _ _ _ _ w') = [] /\
    omap invoked (w_trace _ _ _ _ _ w')
      = [(O, on_train_begin); (O, on_train_end)].
Proof.
  destruct (train_nothing_left_to_run Z Z bool nat Toy.encoder Toy.decoder
              Toy.randn_like Toy.backward Toy.grads_nonfinite Toy.unscale
              Toy.optimizer_step Toy.torch_load false Toy.W Toy.vae
              [] [] 1 (Some "epoch-1.pt"%string) [Toy.noop] Toy.w0 (1 + 1)
              (restore _ _ _ _ 7 8 9 Toy.store0))
    as (w' & E & Ht & _ & _ & Hi & _).
  - constructor; [exact Toy.noop_total|constructor].
  - exact (resumes_from Z Z bool nat Toy.torch_load
             (Some "epoch-1.pt"%string) Toy.store0 "epoch-1.pt"%string
             Toy.good_checkpoint 7 8 9 1 eq_refl eq_refl
             Toy.good_checkpoint_well_formed).
  - lia.
  - exists w'. split; [exact E|]. split; [exact Ht|exact Hi].
Defined.

(** A validation pass under the reading callback. *)
Lemma validation_leaves_weights_witness :
  encoder_sd _ _ _ _
    (w_store _ _ _ _ _
       (snd (Toy2._validate Toy.vae [Toy.batch] 1 [Toy.reader] Toy.w0))) = 0 /\
  training _ _ _ _
    (w_store _ _ _ _ _
       (snd (Toy2._validate Toy.vae [Toy.batch] 1 [Toy.reader] Toy.w0)))
    = false.
Proof.
  destruct (validation_leaves_weights Z Z bool nat Toy.encoder Toy.decoder
              Toy.randn_like Toy.W Toy.vae [Toy.batch] 1 [Toy.reader] Toy.w0)
    as (He & _ & _ & _ & _ & Ht).
  - constructor; [exact Toy.reader_observer|constructor].
  - split; [exact He|exact Ht].
Defined.

(** One epoch under the reading callback. *)
Lemma train_leaves_eval_mode_witness :
  training _ _ _ _
    (w_store _ _ _ _ _
       (snd (Toy.train Toy.vae [Toy.batch] [Toy.batch] 1 None [Toy.reader]
               Toy.w0))) = false.
Proof.
  assert (Hne : [Toy.batch] <> []) by discriminate.
  assert (Ht : Forall (cb_total Z Z bool nat Toy.W) [Toy.reader])
    by (constructor; [exact Toy.reader_total|constructor]).
  assert (Hobs : Forall (cb_observer Z Z bool nat Toy.W) [Toy.reader])
    by (constructor; [exact Toy.reader_observer|constructor]).
  assert (Hr : resumes Z Z bool nat Toy.torch_load None Toy.store0 1 Toy.store0)
    by (now constructor).
  destruct (train_total Z Z bool nat Toy.encoder Toy.decoder Toy.randn_like
              Toy.backward Toy.grads_nonfinite Toy.unscale Toy.optimizer_step
              Toy.torch_load false Toy.W Toy.vae [Toy.batch] [Toy.batch] 1
              None [Toy.reader] Toy.w0 1 Toy.store0 Ht Hne Hne Hr)
    as (per & w' & _ & _ & E & _).
  unfold Toy.train. rewrite E. cbn [snd].
  apply (train_leaves_eval_mode Z Z bool nat Toy.encoder Toy.decoder
           Toy.randn_like Toy.backward Toy.grads_nonfinite Toy.unscale
           Toy.optimizer_step Toy.torch_load false Toy.W Toy.vae
           [Toy.batch] [Toy.batch] 1 None [Toy.reader] Toy.w0 1 Toy.store0 w'
           Hobs Hr).
  - lia.
  - exact E.
Defined.

(** One epoch under [[writer; reader]], from a world without events. *)
Lemma train_begin_first_train_end_last_witness :
  omap invoked
    (w_trace _ _ _ _ _
       (snd (Toy.train Toy.vae [Toy.batch] [Toy.batch] 1 None
               [Toy.writer; Toy.reader] Toy.w0))) = [] \/
  head (omap invoked
          (w_trace _ _ _ _ _
             (snd (Toy.train Toy.vae [Toy.batch] [Toy.batch] 1 None
                     [Toy.writer; Toy.reader] Toy.w0))))
    = Some (O, on_train_begin).
Proof.
  apply (train_begin_first_train_end_last Z Z bool nat Toy.encoder Toy.decoder
           Toy.randn_like Toy.backward Toy.grads_nonfinite Toy.unscale
           Toy.optimizer_step Toy.torch_load false Toy.W Toy.vae
           [Toy.batch] [Toy.batch] 1 None [Toy.writer; Toy.reader] Toy.w0).
  reflexivity.
Defined.

(** A run under the failing callback. *)
Lemma train_raises_only_from_hooks_witness :
  exists idx call logs_in logs_out,
    last (w_trace _ _ _ _ _
            (snd (Toy.train Toy.vae [Toy.batch] [Toy.batch] 1 None
                    [Toy2.failing] Toy.w0)))
      = Some (EvHook idx call logs_in logs_out (Raise (CallbackError "stop"))).
Proof.
  assert (He : fst (Toy.train Toy.vae [Toy.batch] [Toy.batch] 1 None
                      [Toy2.failing] Toy.w0)
               = Raise (CallbackError "stop")) by reflexivity.
  assert (Hne : [Toy.batch] <> []) by discriminate.
  unfold Toy.train in *.
  destruct (train Z Z bool nat Toy.encoder Toy.decoder Toy.randn_like
              Toy.backward Toy.grads_nonfinite Toy.unscale Toy.optimizer_step
              Toy.torch_load false Toy.W Toy.vae [Toy.batch] [Toy.batch] 1
              None [Toy2.failing] Toy.w0) as [r w'] eqn:E.
  cbn [fst snd] in *. subst r.
  apply (train_raises_only_from_hooks Z Z bool nat Toy.encoder Toy.decoder
           Toy.randn_like Toy.backward Toy.grads_nonfinite Toy.unscale
           Toy.optimizer_step Toy.torch_load false Toy.W Toy.vae
           [Toy.batch] [Toy.batch] 1 None [Toy2.failing] Toy.w0 1 Toy.store0
           (CallbackError "stop") w' Hne Hne).
  - now constructor.
  - exact E.
Defined.

(** Mixed precision asked for without CUDA: a batch without data, whose
    gradients are not finite, still moves every weight. *)
Lemma disabled_scaler_always_steps_witness :
  GradScaler.enabled (gscaler _ _ _ _ Toy2.cpu_store0) = false /\
  (optimizer_sd _ _ _ _
     (w_store _ _ _ _ _ (snd (Toy.train_step Toy2.cpu_vae [] Toy2.cpu_w0))),
   (encoder_sd _ _ _ _
      (w_store _ _ _ _ _ (snd (Toy.train_step Toy2.cpu_vae [] Toy2.cpu_w0))),
    decoder_sd _ _ _ _
      (w_store _ _ _ _ _ (snd (Toy.train_step Toy2.cpu_vae [] Toy2.cpu_w0)))))
    = (1, (1, 1)).
Proof.
  destruct (disabled_scaler_always_steps Z Z bool nat Toy.encoder Toy.decoder
              Toy.randn_like Toy.F_bce Toy.backward Toy.grads_nonfinite
              Toy.unscale Toy.optimizer_step false false 0 1 Toy.W 1%R None
              Device.GNone true false (Plain 1%nat) 2%nat 0 0 0 O
              Toy2.cpu_vae Toy2.cpu_store0 eq_refl eq_refl) as [Hoff Hstep].
  split; [exact Hoff|].
  destruct (Hstep [] Toy2.cpu_w0 eq_refl) as (Ho & _). exact Ho.
Defined.

(** Resuming from the checkpoint of epoch 1 with a callback attached. *)
Lemma on_train_begin_sees_restored_state_witness :
  exists pre logs_in logs_out r tail,
    w_trace _ _ _ _ _
      (snd (Toy.train Toy.vae [Toy.batch] [Toy.batch] 2
              (Some "epoch-1.pt"%string) [Toy.noop] Toy.w0))
      = [] ++ pre ++ EvHook 0 on_train_begin logs_in logs_out r :: tail /\
    logs_in !! "model"%string = Some (VObj 1%nat).
Proof.
  destruct (on_train_begin_sees_restored_state Z Z bool nat Toy.encoder
              Toy.decoder Toy.randn_like Toy.backward Toy.grads_nonfinite
              Toy.unscale Toy.optimizer_step Toy.torch_load false Toy.W
              Toy.vae [Toy.batch] [Toy.batch] 2 (Some "epoch-1.pt"%string)
              Toy.noop [] Toy.w0 (1 + 1) (restore _ _ _ _ 7 8 9 Toy.store0))
    as (lin & tail & Htr & Hm & _).
  - exact (resumes_from Z Z bool nat Toy.torch_load
             (Some "epoch-1.pt"%string) Toy.store0 "epoch-1.pt"%string
             Toy.good_checkpoint 7 8 9 1 eq_refl eq_refl
             Toy.good_checkpoint_well_formed).
  - eexists _, lin, _, _, tail. split; [exact Htr|exact Hm].
Defined.


(** Integers under their usual order. *)
Lemma minmax_bounds_witness :
  exists min_ max_,
    Embedding.minmax Z Z.ltb [3; 1; 4; 1; 5] = Some (min_, max_) /\
    In min_ [3; 1; 4; 1; 5] /\ In max_ [3; 1; 4; 1; 5] /\
    forall y, In y [3; 1; 4; 1; 5] -> (y <? min_) = false /\ (max_ <? y) = false.
Proof.
  apply (minmax_bounds Z.ltb [3; 1; 4; 1; 5]).
  - intros a. apply Z.ltb_irrefl.
  - intros a b c H1 H2. apply Z.ltb_lt in H1, H2. apply Z.ltb_lt. lia.
  - discriminate.
Defined.


(** Ten contact maps split 80/20. *)
Lemma ContactMapDataset_split_partitions_witness :
  exists train_set valid_set,
    ContactMap.__init__ unit (fun _ => 10) (fun _ _ => 22)
      (fun _ _ => tt) tt (4 # 5) "train" false false None false
      = inr train_set /\
    ContactMap.__init__ unit (fun _ => 10) (fun _ _ => 22)
      (fun _ _ => tt) tt (4 # 5) "valid" false false None false
      = inr valid_set /\
    ContactMap.__len__ unit (fun _ => 10) train_set = inr 8 /\
    ContactMap.__len__ unit (fun _ => 10) valid_set = inr 2 /\
    map (ContactMap.__getitem__ unit Z (fun _ i => i) train_set) (range 0 8)
    ++ map (ContactMap.__getitem__ unit Z (fun _ i => i) valid_set) (range 0 2)
    = map (fun i => inr (ContactMap.Dense Z i)) (range 0 10).
Proof.
  eexists _, _. split; [reflexivity|]. split; [reflexivity|].
  split; [reflexivity|]. split; [reflexivity|].
  destruct (ContactMapDataset_split_partitions (fun _ => 10) (fun _ _ => 22)
              (fun _ _ => tt) (fun _ i => i) tt (4 # 5) false None false
              false None false _ _ ltac:(lia) eq_refl eq_refl)
    as (n1 & n2 & L1 & L2 & _ & _ & _ & H).
  injection L1 as <-. injection L2 as <-. exact H.
Defined.

(** A key given twice. *)
Lemma parse_dict_reads_back_witness :
  Cli.parse_dict (Some "lr=0.1,name=Adam,lr=0.2"%string)
    = Ok (Some (<["lr"%string := "0.2"%string]>
                  (<["name"%string := "Adam"%string]>
                     (<["lr"%string := "0.1"%string]> ∅)))).
Proof.
  apply (parse_dict_reads_back
           [("lr", "0.1"); ("name", "Adam"); ("lr", "0.2")]%string).
  - discriminate.
  - repeat constructor.
Defined.

(** An item without an equals sign. *)
Lemma parse_dict_ok_iff_witness :
  exists msg,
    Cli.parse_dict (Some "lambda_rec"%string) = Raise (Py.ValueError msg).
Proof.
  apply (parse_dict_ok_iff "lambda_rec"%string). reflexivity.
Defined.
